(** * The canvas of dora: viewport, marquee selection and transform gestures

    A shallow embedding of [InfiniteCanvas] and [TransformableElement]
    (with the element types of [types.ts]) and the properties the
    specification states about them.

    JavaScript numbers are modelled as real numbers: [+ - * /] are the
    field operations, [Math.max]/[Math.min] are [Rmax]/[Rmin], [Math.sqrt],
    [Math.cos], [Math.sin] and [Math.PI] are the functions of the standard
    library of reals, and [Math.atan2] is defined from [atan] by quadrant.
    Rounding, NaN, infinities and signed zeros are outside the model, so
    an equality the specification states "within floating-point tolerance"
    is stated here as an equality of reals.

    A React component is modelled by its state record; an event handler is
    a function from the state (and the props and the event) to the next
    state and the list of callbacks of the parent it invokes. *)

From Stdlib Require Import Reals Lra List String Bool.
Import ListNotations.

Open Scope R_scope.

(** ** types.ts *)

Record Point : Type := mkPoint { x : R; y : R }.

Record BaseElement : Type := mkBase {
  id : string;
  position : Point;
  width : R;
  height : R;
  rotation : R;  (* in degrees *)
  zIndex : R
}.

(** [CanvasElement = NoteElement | ImageElement | ArrowElement]; each
    variant extends [BaseElement]. [end] is a keyword, hence [end_]. *)
Inductive CanvasElement : Type :=
| NoteElement (base : BaseElement) (content color : string)
| ImageElement (base : BaseElement) (src : string)
| ArrowElement (base : BaseElement) (start end_ : Point) (color : string).

Definition base_of (el : CanvasElement) : BaseElement :=
  match el with
  | NoteElement b _ _ => b
  | ImageElement b _ => b
  | ArrowElement b _ _ _ => b
  end.

(** [el.id] *)
Definition idOf (el : CanvasElement) : string := id (base_of el).

(** [{ ...el, <base fields> }]: the variant fields are kept. *)
Definition with_base (el : CanvasElement) (b : BaseElement) : CanvasElement :=
  match el with
  | NoteElement _ c k => NoteElement b c k
  | ImageElement _ s => ImageElement b s
  | ArrowElement _ s e k => ArrowElement b s e k
  end.

Definition set_position (p : Point) (b : BaseElement) : BaseElement :=
  mkBase (id b) p (width b) (height b) (rotation b) (zIndex b).
Definition set_width (w : R) (b : BaseElement) : BaseElement :=
  mkBase (id b) (position b) w (height b) (rotation b) (zIndex b).
Definition set_height (h : R) (b : BaseElement) : BaseElement :=
  mkBase (id b) (position b) (width b) h (rotation b) (zIndex b).
Definition set_rotation (r : R) (b : BaseElement) : BaseElement :=
  mkBase (id b) (position b) (width b) (height b) r (zIndex b).

(** ** The functions of [Math] the components use *)

Module Math.

Definition max (a b : R) : R := Rmax a b.
Definition min (a b : R) : R := Rmin a b.
Definition sqrt (a : R) : R := R_sqrt.sqrt a.
Definition cos (a : R) : R := Rtrigo_def.cos a.
Definition sin (a : R) : R := Rtrigo_def.sin a.
Definition PI : R := Rtrigo1.PI.

(** [Math.atan2(y, x)]: the angle of the vector [(x, y)], in (-PI, PI],
    and [0] at the origin. *)
Definition atan2 (b a : R) : R :=
  if Rlt_dec 0 a then atan (b / a)
  else if Rlt_dec a 0 then
    (if Rle_dec 0 b then atan (b / a) + PI else atan (b / a) - PI)
  else if Rlt_dec 0 b then PI / 2
  else if Rlt_dec b 0 then - (PI / 2)
  else 0.

End Math.

(** Comparisons of numbers as booleans, as [filter] needs them. *)
Definition Rleb (a b : R) : bool := if Rle_dec a b then true else false.
Definition Rgeb (a b : R) : bool := Rleb b a.

(** [ids.includes(i)] *)
Definition includes (ids : list string) (i : string) : bool :=
  existsb (String.eqb i) ids.

(** ** InfiniteCanvas *)

Module InfiniteCanvas.

Record MarqueeRect : Type := mkMarquee { m_start : Point; m_end : Point }.

Definition MIN_ZOOM : R := 1 / 10.
Definition MAX_ZOOM : R := 5.

(** The [useState] cells of the component. *)
Record State : Type := mkState {
  pan : Point;
  zoom : R;
  isPanning : bool;
  startPan : Point;
  isSpacebarPressed : bool;
  marqueeRect : option MarqueeRect
}.

(** The values of the [useState] initialisers. *)
Definition initialState : State :=
  mkState (mkPoint 0 0) 1 false (mkPoint 0 0) false None.

(** The props that carry data. *)
Record Props : Type := mkProps {
  elements : list CanvasElement;
  selectedElementIds : list string
}.

(** The props that are callbacks, as the calls a handler makes. *)
Inductive Callback : Type :=
| onSelectElement (i : option string) (shiftKey : bool)
| onMarqueeSelect (ids : list string) (shiftKey : bool)
| onGenerate (selectedElements : list CanvasElement).

(** What the handlers read of a mouse event; [onElement] is whether
    [e.target.closest('.transform-handle, .element-body, .generate-btn')]
    finds an ancestor. *)
Record MouseEvent : Type := mkMouse {
  clientX : R;
  clientY : R;
  button : nat;
  shiftKey : bool;
  onElement : bool
}.

Record WheelEvent : Type := mkWheel {
  w_clientX : R;
  w_clientY : R;
  deltaY : R
}.

(** [canvasRef.current.getBoundingClientRect()], as far as it is read. *)
Record DOMRect : Type := mkRect { left : R; top : R }.

Definition set_pan (p : Point) (st : State) : State :=
  mkState p (zoom st) (isPanning st) (startPan st)
          (isSpacebarPressed st) (marqueeRect st).
Definition set_zoom (z : R) (st : State) : State :=
  mkState (pan st) z (isPanning st) (startPan st)
          (isSpacebarPressed st) (marqueeRect st).
Definition set_isPanning (b : bool) (st : State) : State :=
  mkState (pan st) (zoom st) b (startPan st)
          (isSpacebarPressed st) (marqueeRect st).
Definition set_startPan (p : Point) (st : State) : State :=
  mkState (pan st) (zoom st) (isPanning st) p
          (isSpacebarPressed st) (marqueeRect st).
Definition set_marqueeRect (m : option MarqueeRect) (st : State) : State :=
  mkState (pan st) (zoom st) (isPanning st) (startPan st)
          (isSpacebarPressed st) m.

Definition screenToWorld (st : State) (screenPoint : Point) : Point :=
  mkPoint ((x screenPoint - x (pan st)) / zoom st)
          ((y screenPoint - y (pan st)) / zoom st).

(** [canvas] is [canvasRef.current]; without it the handler returns
    before it sets anything. *)
Definition handleWheel (canvas : option DOMRect) (e : WheelEvent)
    (st : State) : State :=
  match canvas with
  | None => st
  | Some rect =>
      let mouseX := w_clientX e - left rect in
      let mouseY := w_clientY e - top rect in
      let worldX := (mouseX - x (pan st)) / zoom st in
      let worldY := (mouseY - y (pan st)) / zoom st in
      let zoomFactor := 1 - deltaY e * (1 / 1000) in
      let newZoom :=
        Math.max MIN_ZOOM (Math.min MAX_ZOOM (zoom st * zoomFactor)) in
      let newPanX := mouseX - worldX * newZoom in
      let newPanY := mouseY - worldY * newZoom in
      set_pan (mkPoint newPanX newPanY) (set_zoom newZoom st)
  end.

(** A sequence of wheel events, each with the canvas it finds. *)
Fixpoint wheels (es : list (option DOMRect * WheelEvent)) (st : State)
    : State :=
  match es with
  | [] => st
  | (canvas, e) :: rest => wheels rest (handleWheel canvas e st)
  end.

Definition handleMouseDown (e : MouseEvent) (st : State)
    : State * list Callback :=
  if negb (Nat.eqb (button e) 0) || onElement e then (st, [])
  else if isSpacebarPressed st then
    (set_startPan (mkPoint (clientX e - x (pan st)) (clientY e - y (pan st)))
                  (set_isPanning true st),
     [])
  else
    (set_marqueeRect
       (Some (mkMarquee (mkPoint (clientX e) (clientY e))
                        (mkPoint (clientX e) (clientY e)))) st,
     [onSelectElement None (shiftKey e)]).

Definition handleMouseMove (e : MouseEvent) (st : State) : State :=
  if isPanning st then
    set_pan (mkPoint (clientX e - x (startPan st))
                     (clientY e - y (startPan st))) st
  else
    match marqueeRect st with
    | Some prev =>
        set_marqueeRect
          (Some (mkMarquee (m_start prev) (mkPoint (clientX e) (clientY e))))
          st
    | None => st
    end.

(** The [selectionBox] of [handleMouseUp]; its [width] and [height] are
    not set there and not read. *)
Record SelectionBox : Type := mkSelectionBox {
  sb_minX : R; sb_maxX : R; sb_minY : R; sb_maxY : R
}.

Definition selectionBox (st : State) (m : MarqueeRect) : SelectionBox :=
  let startWorld := screenToWorld st (m_start m) in
  let endWorld := screenToWorld st (m_end m) in
  mkSelectionBox (Math.min (x startWorld) (x endWorld))
                 (Math.max (x startWorld) (x endWorld))
                 (Math.min (y startWorld) (y endWorld))
                 (Math.max (y startWorld) (y endWorld)).

(** The predicate of the [filter] of [handleMouseUp]. *)
Definition inSelectionBox (box : SelectionBox) (el : CanvasElement) : bool :=
  Rgeb (x (position (base_of el))) (sb_minX box) &&
  Rleb (x (position (base_of el))) (sb_maxX box) &&
  Rgeb (y (position (base_of el))) (sb_minY box) &&
  Rleb (y (position (base_of el))) (sb_maxY box).

Definition handleMouseUp (props : Props) (e : MouseEvent) (st : State)
    : State * list Callback :=
  let st1 := set_isPanning false st in
  match marqueeRect st with
  | Some m =>
      let box := selectionBox st m in
      let selectedIds :=
        map (fun el => id (base_of el))
            (filter (inSelectionBox box) (elements props)) in
      (set_marqueeRect None st1,
       if Nat.ltb 0 (List.length selectedIds)
       then [onMarqueeSelect selectedIds (shiftKey e)]
       else [])
  | None => (st1, [])
  end.

Definition getRotatedCorners (el : CanvasElement) : list Point :=
  let cx := x (position (base_of el)) in
  let cy := y (position (base_of el)) in
  let rad := rotation (base_of el) * (Math.PI / 180) in
  let cos := Math.cos rad in
  let sin := Math.sin rad in
  let halfW := width (base_of el) / 2 in
  let halfH := height (base_of el) / 2 in
  let corners :=
    [mkPoint (- halfW) (- halfH); mkPoint halfW (- halfH);
     mkPoint halfW halfH; mkPoint (- halfW) halfH] in
  map (fun corner =>
         mkPoint (cx + x corner * cos - y corner * sin)
                 (cy + x corner * sin + y corner * cos))
      corners.

Definition handleGenerateClick (props : Props) (st : State)
    : State * list Callback :=
  let selectedElements :=
    filter (fun el => includes (selectedElementIds props) (id (base_of el)))
           (elements props) in
  if Nat.ltb 0 (List.length selectedElements)
  then (st, [onGenerate selectedElements])
  else (st, []).

(** A sequence of pointer moves over the canvas. *)
Definition mouseMoves (es : list MouseEvent) (st : State) : State :=
  fold_left (fun s e => handleMouseMove e s) es st.

(** What the key handlers read of a keyboard event: [e.code], and of
    [e.target] the tag name and [isContentEditable]. *)
Record KeyboardEvent : Type := mkKey {
  code : string;
  tagName : string;
  isContentEditable : bool
}.

Definition set_isSpacebarPressed (b : bool) (st : State) : State :=
  mkState (pan st) (zoom st) (isPanning st) (startPan st) b (marqueeRect st).

Definition handleKeyDown (e : KeyboardEvent) (st : State) : State :=
  if String.eqb (code e) "Space" then
    if String.eqb (tagName e) "TEXTAREA" || String.eqb (tagName e) "INPUT"
       || isContentEditable e
    then st
    else set_isSpacebarPressed true st
  else st.

Definition handleKeyUp (e : KeyboardEvent) (st : State) : State :=
  if String.eqb (code e) "Space" then set_isSpacebarPressed false st
  else st.

(** [clientWidth]/[clientHeight] of the canvas, [innerWidth]/[innerHeight]
    of the window. *)
Record Size : Type := mkSize { s_width : R; s_height : R }.

(** [canvas] is [canvasRef.current]. *)
Definition resetView (canvas : option Size) (window : Size) (st : State)
    : State :=
  set_zoom 1
    (set_pan
       (match canvas with
        | Some c => mkPoint (s_width c / 2) (s_height c / 2)
        | None => mkPoint (s_width window / 2) (s_height window / 2)
        end) st).

Record BoundingBox : Type := mkBox {
  minX : R; minY : R; maxX : R; maxY : R; box_width : R; box_height : R
}.

(** [Math.min(...l)] and [Math.max(...l)] of a list that is not empty; of
    the empty list they are the infinities, which [selectionBbox] never
    meets: every selected element has four corners. *)
Definition minOf (l : list R) : R :=
  match l with
  | [] => 0
  | a :: rest => fold_left Math.min rest a
  end.
Definition maxOf (l : list R) : R :=
  match l with
  | [] => 0
  | a :: rest => fold_left Math.max rest a
  end.

(** The [useMemo] that computes the box around the selection. *)
Definition selectionBbox (props : Props) : option BoundingBox :=
  let selectedElements :=
    filter (fun el => includes (selectedElementIds props) (id (base_of el)))
           (elements props) in
  if Nat.eqb (List.length selectedElements) 0 then None
  else
    let allCorners := flat_map getRotatedCorners selectedElements in
    let minX := minOf (map x allCorners) in
    let minY := minOf (map y allCorners) in
    let maxX := maxOf (map x allCorners) in
    let maxY := maxOf (map y allCorners) in
    Some (mkBox minX minY maxX maxY (maxX - minX) (maxY - minY)).

(** [left] and [top] of the generate button, in canvas pixels. *)
Definition generateButtonPosition (st : State) (bbox : BoundingBox) : Point :=
  mkPoint (maxX bbox * zoom st + x (pan st) + 10)
          (maxY bbox * zoom st + y (pan st) + 10).

(** [cursorClass] *)
Definition cursorClass (st : State) : string :=
  if isSpacebarPressed st then
    (if isPanning st then "cursor-grabbing" else "cursor-grab")
  else "cursor-default".

End InfiniteCanvas.

(** ** TransformableElement *)

Module TransformableElement.

Inductive InteractionType : Type :=
| drag | resize | rotate | resize_arrow_start | resize_arrow_end.

Record Interaction : Type := mkInteraction {
  type : InteractionType;
  startPoint : Point;
  startElement : CanvasElement;
  startAngle : option R;
  center : option Point
}.

(** What [handleInteractionMove] reads of the native mouse event. *)
Record MouseEvent : Type := mkMove { clientX : R; clientY : R }.

(** What [handleInteractionStart] reads of the React mouse event. *)
Record StartEvent : Type := mkStart {
  s_button : nat;
  s_clientX : R;
  s_clientY : R;
  s_shiftKey : bool
}.

(** [elementRef.current.getBoundingClientRect()] *)
Record DOMRect : Type := mkRect {
  left : R; top : R; rect_width : R; rect_height : R
}.

(** Pointer-down on the body or on a handle: the call [onSelect(id,
    shiftKey)] and the interaction it sets, with the element of the moment
    as the snapshot; [None] when the button is not the left one. *)
Definition handleInteractionStart (elementRef : option DOMRect)
    (element : CanvasElement) (e : StartEvent) (ty : InteractionType)
    : option ((string * bool) * Interaction) :=
  if negb (Nat.eqb (s_button e) 0) then None
  else
    let startPoint := mkPoint (s_clientX e) (s_clientY e) in
    let interactionDetails :=
      match ty, elementRef with
      | rotate, Some rect =>
          let centerX := left rect + rect_width rect / 2 in
          let centerY := top rect + rect_height rect / 2 in
          mkInteraction ty startPoint element
            (Some (Math.atan2 (y startPoint - centerY)
                              (x startPoint - centerX)))
            (Some (mkPoint centerX centerY))
      | _, _ => mkInteraction ty startPoint element None None
      end in
    Some ((idOf element, s_shiftKey e), interactionDetails).

(** Pointer-up: [setInteraction(null)]. *)
Definition handleInteractionEnd (interaction : option Interaction)
    : option Interaction := None.

(** What one run of [handleInteractionMove] does: it returns without a
    call, or it calls [onUpdate(element, dragDelta?)], or it throws (the
    TypeError of reading [start.x] or [end.x] of an element that has
    neither, behind the cast [startElement as ArrowElement]). *)
Inductive Outcome : Type :=
| NoCall
| Throws
| onUpdate (element : CanvasElement) (dragDelta : option Point).

Definition handleInteractionMove (interaction : option Interaction)
    (zoom : R) (element : CanvasElement) (e : MouseEvent) : Outcome :=
  match interaction with
  | None => NoCall
  | Some i =>
      let startElement := startElement i in
      let sb := base_of startElement in
      let dx := (clientX e - x (startPoint i)) / zoom in
      let dy := (clientY e - y (startPoint i)) / zoom in
      match type i with
      | drag =>
          let newPosition :=
            mkPoint (x (position sb) + dx) (y (position sb) + dy) in
          let delta :=
            mkPoint (x newPosition - x (position (base_of element)))
                    (y newPosition - y (position (base_of element))) in
          let updatedElement :=
            match startElement with
            | ArrowElement b s en c =>
                ArrowElement (set_position newPosition b)
                             (mkPoint (x s + dx) (y s + dy))
                             (mkPoint (x en + dx) (y en + dy)) c
            | _ => with_base startElement (set_position newPosition sb)
            end in
          onUpdate updatedElement (Some delta)
      | resize =>
          let rad := rotation sb * (Math.PI / 180) in
          let cos := Math.cos (- rad) in
          let sin := Math.sin (- rad) in
          let rotDx := dx * cos - dy * sin in
          let rotDy := dx * sin + dy * cos in
          let newWidth := Math.max 20 (width sb + rotDx) in
          let newHeight := Math.max 20 (height sb + rotDy) in
          let dw := newWidth - width sb in
          let dh := newHeight - height sb in
          let posDx := (dw / 2 * Math.cos rad) - (dh / 2 * Math.sin rad) in
          let posDy := (dw / 2 * Math.sin rad) + (dh / 2 * Math.cos rad) in
          onUpdate
            (with_base startElement
               (set_position (mkPoint (x (position sb) + posDx)
                                      (y (position sb) + posDy))
                  (set_height newHeight (set_width newWidth sb))))
            None
      | rotate =>
          match center i, startAngle i with
          | Some c, Some a =>
              let currentAngle :=
                Math.atan2 (clientY e - y c) (clientX e - x c) in
              let angleDiff := currentAngle - a in
              onUpdate
                (with_base startElement
                   (set_rotation
                      (rotation sb + angleDiff * (180 / Math.PI)) sb))
                None
          | _, _ => NoCall
          end
      | resize_arrow_start | resize_arrow_end =>
          match startElement with
          | ArrowElement b s0 e0 c =>
              let s :=
                match type i with
                | resize_arrow_start => mkPoint (x s0 + dx) (y s0 + dy)
                | _ => s0
                end in
              let en :=
                match type i with
                | resize_arrow_start => e0
                | _ => mkPoint (x e0 + dx) (y e0 + dy)
                end in
              let newDx := x en - x s in
              let newDy := y en - y s in
              let newWidth :=
                Math.max 10 (Math.sqrt (newDx * newDx + newDy * newDy)) in
              let newRotation := Math.atan2 newDy newDx * (180 / Math.PI) in
              let newPosition :=
                mkPoint ((x s + x en) / 2) ((y s + y en) / 2) in
              onUpdate
                (ArrowElement
                   (set_rotation newRotation
                      (set_width newWidth (set_position newPosition b)))
                   s en c)
                None
          | _ => Throws
          end
      end
  end.

(** [el.start] and [el.end], which only an arrow has. *)
Definition start_of (el : CanvasElement) : option Point :=
  match el with ArrowElement _ s _ _ => Some s | _ => None end.
Definition end_of (el : CanvasElement) : option Point :=
  match el with ArrowElement _ _ en _ => Some en | _ => None end.

(** A gesture: the interaction and the zoom stay as they are while the
    mouse moves; each move runs the handler with the [element] prop of the
    moment. The parent that owns the elements is not part of the
    component: [parent element updated dragDelta] is the [element] prop
    it passes down after the call [onUpdate(updated, dragDelta)]. *)
Section Gesture.

Variable parent : CanvasElement -> CanvasElement -> option Point
                  -> CanvasElement.
Variable interaction : option Interaction.
Variable zoom : R.

Definition move (st : CanvasElement * Outcome) (e : MouseEvent)
    : CanvasElement * Outcome :=
  let o := handleInteractionMove interaction zoom (fst st) e in
  (match o with
   | onUpdate updated d => parent (fst st) updated d
   | _ => fst st
   end, o).

(** The element prop and the outcome of the last move, after the moves
    [es] in order. *)
Definition moves (element : CanvasElement) (es : list MouseEvent)
    : CanvasElement * Outcome :=
  fold_left move es (element, NoCall).

End Gesture.

(** A parent that puts the updated element in the place of the old one. *)
Definition replacing (element updated : CanvasElement)
    (dragDelta : option Point) : CanvasElement := updated.

(** The element value of an outcome, without the drag delta. *)
Definition produced (o : Outcome) : Outcome :=
  match o with
  | onUpdate updated _ => onUpdate updated None
  | _ => o
  end.

(** Whether a move calls [onUpdate] is decided by the interaction alone. *)
Definition updates (i : option Interaction) : bool :=
  match i with
  | None => false
  | Some i =>
      match type i, startElement i, center i, startAngle i with
      | drag, _, _, _ | resize, _, _, _ => true
      | rotate, _, Some _, Some _ => true
      | rotate, _, _, _ => false
      | _, ArrowElement _ _ _ _, _, _ => true
      | _, _, _, _ => false
      end
  end.

(** The drag deltas the moves [es] hand to [onUpdate], in order, for the
    parent [parent] of [moves]. *)
Fixpoint dragDeltas
    (parent : CanvasElement -> CanvasElement -> option Point -> CanvasElement)
    (interaction : option Interaction) (zoom : R) (element : CanvasElement)
    (es : list MouseEvent) : list Point :=
  match es with
  | [] => []
  | e :: rest =>
      match handleInteractionMove interaction zoom element e with
      | onUpdate updated (Some d) =>
          d :: dragDeltas parent interaction zoom
                          (parent element updated (Some d)) rest
      | onUpdate updated None =>
          dragDeltas parent interaction zoom (parent element updated None) rest
      | _ => dragDeltas parent interaction zoom element rest
      end
  end.

(** The sum of a list of vectors. *)
Definition sumPoints (l : list Point) : Point :=
  fold_right (fun d acc => mkPoint (x d + x acc) (y d + y acc))
             (mkPoint 0 0) l.

End TransformableElement.


(** ** The vocabulary of the specification *)

Module Spec.

Import TransformableElement.

(** [p + d] *)
Definition translate (d p : Point) : Point :=
  mkPoint (x p + x d) (y p + y d).

(** [(a + b) / 2] *)
Definition midpoint (a b : Point) : Point :=
  mkPoint ((x a + x b) / 2) ((y a + y b) / 2).

(** [|b - a|] *)
Definition distance (a b : Point) : R :=
  sqrt ((x b - x a) * (x b - x a) + (y b - y a) * (y b - y a)).

(** [atan2(b.y - a.y, b.x - a.x)] in degrees *)
Definition angle (a b : Point) : R :=
  Math.atan2 (y b - y a) (x b - x a) * (180 / PI).

(** [rotate(p, deg)] of the specification: the vector [p] turned by [deg]
    degrees. *)
Definition rotateVec (deg : R) (p : Point) : Point :=
  let theta := deg * (PI / 180) in
  mkPoint (x p * cos theta - y p * sin theta)
          (x p * sin theta + y p * cos theta).

(** The pointer displacement since the gesture started, in world units. *)
Definition worldDelta (zoom : R) (startPoint : Point) (e : MouseEvent)
    : Point :=
  mkPoint ((clientX e - x startPoint) / zoom)
          ((clientY e - y startPoint) / zoom).

(** The top-left corner of an element that is not rotated. *)
Definition topLeft (b : BaseElement) : Point :=
  mkPoint (x (position b) - width b / 2) (y (position b) - height b / 2).

(** The arrow invariant of the data model; it constrains arrows only. *)
Definition arrow_invariant (el : CanvasElement) : Prop :=
  match el with
  | ArrowElement b s en _ =>
      position b = midpoint s en /\
      width b = distance s en /\
      rotation b = angle s en
  | _ => True
  end.

(** The same with the width floored at 10. *)
Definition arrow_invariant_floored (el : CanvasElement) : Prop :=
  match el with
  | ArrowElement b s en _ =>
      position b = midpoint s en /\
      width b = Rmax 10 (distance s en) /\
      rotation b = angle s en
  | _ => True
  end.

Definition arrow_length (el : CanvasElement) : R :=
  match el with
  | ArrowElement _ s en _ => distance s en
  | _ => 0
  end.

(** The arrow of the scenarios: from (0,0) to (100,0). *)
Definition arrow0 : CanvasElement :=
  ArrowElement (mkBase "a" (mkPoint 50 0) 100 30 0 0)
               (mkPoint 0 0) (mkPoint 100 0) "text-gray-800".

(** The center of [el] lies in the world rectangle of the marquee [m]:
    both corners converted with [screenToWorld], then the axis-aligned
    box between them. *)
Definition centerInMarquee (st : InfiniteCanvas.State)
    (m : InfiniteCanvas.MarqueeRect) (el : CanvasElement) : Prop :=
  let a := InfiniteCanvas.screenToWorld st (InfiniteCanvas.m_start m) in
  let b := InfiniteCanvas.screenToWorld st (InfiniteCanvas.m_end m) in
  let p := position (base_of el) in
  (Rmin (x a) (x b) <= x p <= Rmax (x a) (x b)) /\
  (Rmin (y a) (y b) <= y p <= Rmax (y a) (y b)).

(** The currently selected elements: the elements, in their order, whose
    identifier is in the selection. *)
Definition selectedElements (props : InfiniteCanvas.Props)
    : list CanvasElement :=
  filter (fun el =>
            if in_dec string_dec (id (base_of el))
                      (InfiniteCanvas.selectedElementIds props)
            then true else false)
         (InfiniteCanvas.elements props).

(** The element of the center-only scenario: center (10,10), 100 wide and
    high, not rotated. *)
Definition elementE : CanvasElement :=
  NoteElement (mkBase "E" (mkPoint 10 10) 100 100 0 0) "" "bg-yellow-400".

(** A canvas at pan (0,0) and zoom 1 with a marquee from (0,0) to (5,5). *)
Definition marquee05 : InfiniteCanvas.MarqueeRect :=
  InfiniteCanvas.mkMarquee (mkPoint 0 0) (mkPoint 5 5).
Definition stateMarquee05 : InfiniteCanvas.State :=
  InfiniteCanvas.mkState (mkPoint 0 0) 1 false (mkPoint 0 0) false
                         (Some marquee05).

End Spec.

(** * Properties *)

Lemma Rleb_true (a b : R) : Rleb a b = true <-> a <= b.
Proof.
  unfold Rleb. destruct (Rle_dec a b) as [H | H]; split; intro K;
    try reflexivity; try assumption; try discriminate; contradiction.
Qed.

Lemma Rgeb_true (a b : R) : Rgeb a b = true <-> a >= b.
Proof.
  unfold Rgeb. rewrite Rleb_true. split; intro; lra.
Qed.


Section Viewport.

Import InfiniteCanvas.

Lemma MIN_ZOOM_pos : 0 < MIN_ZOOM.
Proof. unfold MIN_ZOOM. lra. Qed.

Lemma clamp_bounds (v : R) :
  MIN_ZOOM <= Math.max MIN_ZOOM (Math.min MAX_ZOOM v) <= MAX_ZOOM.
Proof.
  unfold Math.max, Math.min, MIN_ZOOM, MAX_ZOOM.
  split.
  - apply Rmax_l.
  - apply Rmax_lub; [lra | apply Rmin_l].
Qed.

(** One wheel step leaves the zoom inside the bounds it was in. *)
Lemma handleWheel_zoom_bounds canvas e st :
  MIN_ZOOM <= zoom st <= MAX_ZOOM ->
  MIN_ZOOM <= zoom (handleWheel canvas e st) <= MAX_ZOOM.
Proof.
  intros Hz. destruct canvas as [rect | ]; simpl; [ | exact Hz].
  apply clamp_bounds.
Qed.

Lemma wheels_zoom_bounds es : forall st,
  MIN_ZOOM <= zoom st <= MAX_ZOOM ->
  MIN_ZOOM <= zoom (wheels es st) <= MAX_ZOOM.
Proof.
  induction es as [ | [canvas e] rest IH]; intros st Hz; simpl.
  - exact Hz.
  - apply IH. apply handleWheel_zoom_bounds. exact Hz.
Qed.

(** C1. Zoom-anchor invariant: with the zoom in [0.1, 5], after one wheel
    step anchored at the canvas-relative point P, the world point under P
    computed with the new pan and zoom is the world point under P
    computed with the old pan and zoom. *)
Theorem zoom_anchor_invariant (rect : DOMRect) (e : WheelEvent) (st : State) :
  MIN_ZOOM <= zoom st <= MAX_ZOOM ->
  let P := mkPoint (w_clientX e - left rect) (w_clientY e - top rect) in
  screenToWorld (handleWheel (Some rect) e st) P = screenToWorld st P.
Proof.
  intros Hz P.
  pose proof (clamp_bounds (zoom st * (1 - deltaY e * (1 / 1000)))) as Hn.
  pose proof MIN_ZOOM_pos as Hm.
  unfold screenToWorld, handleWheel, P; simpl.
  set (nz := Math.max MIN_ZOOM _) in *.
  assert (nz <> 0) as Hnz by lra.
  f_equal; field; split; lra.
Qed.

Lemma zoom_anchor_invariant_witness :
  screenToWorld
    (handleWheel (Some (mkRect 0 0)) (mkWheel 100 100 (-1000)) initialState)
    (mkPoint (100 - 0) (100 - 0))
  = screenToWorld initialState (mkPoint (100 - 0) (100 - 0)).
Proof.
  apply (zoom_anchor_invariant (mkRect 0 0) (mkWheel 100 100 (-1000))
                               initialState).
  unfold MIN_ZOOM, MAX_ZOOM; simpl; lra.
Defined.

(** C2. Zoom bounds: from a zoom of 1, after any finite sequence of wheel
    events the zoom lies in [0.1, 5]. *)
Theorem zoom_bounds_invariant (es : list (option DOMRect * WheelEvent))
    (st : State) :
  zoom st = 1 ->
  MIN_ZOOM <= zoom (wheels es st) <= MAX_ZOOM.
Proof.
  intros H1. apply wheels_zoom_bounds.
  rewrite H1. unfold MIN_ZOOM, MAX_ZOOM. lra.
Qed.

Lemma zoom_bounds_invariant_witness :
  MIN_ZOOM
  <= zoom (wheels [(Some (mkRect 0 0), mkWheel 100 100 (-1000));
                   (Some (mkRect 0 0), mkWheel 7 3 (-9000))] initialState)
  <= MAX_ZOOM.
Proof.
  apply (zoom_bounds_invariant
           [(Some (mkRect 0 0), mkWheel 100 100 (-1000));
            (Some (mkRect 0 0), mkWheel 7 3 (-9000))] initialState).
  reflexivity.
Defined.

(** The scenario of the specification: at zoom 1 and pan (0,0), a wheel
    event with factor 2 (deltaY = -1000) at (100,100) gives zoom 2 and pan
    (-100,-100). *)
Example wheel_scenario :
  handleWheel (Some (mkRect 0 0)) (mkWheel 100 100 (-1000)) initialState
  = mkState (mkPoint (-100) (-100)) 2 false (mkPoint 0 0) false None.
Proof.
  unfold handleWheel, initialState, set_pan, set_zoom, Math.max, Math.min,
    MIN_ZOOM, MAX_ZOOM; simpl.
  replace (1 * (1 - -1000 * (1 / 1000))) with 2 by lra.
  rewrite (Rmin_right 5 2) by lra. rewrite (Rmax_right (1 / 10) 2) by lra.
  f_equal. f_equal; lra.
Qed.

(** The bounds are met: a long turn of the wheel stops at 5 or at 0.1. *)
Example wheel_clamps :
  zoom (handleWheel (Some (mkRect 0 0)) (mkWheel 7 3 (-9000)) initialState)
  = MAX_ZOOM /\
  zoom (handleWheel (Some (mkRect 0 0)) (mkWheel 7 3 2000) initialState)
  = MIN_ZOOM.
Proof.
  unfold handleWheel, Math.max, Math.min, MIN_ZOOM, MAX_ZOOM; simpl. split.
  - rewrite Rmin_left by lra. apply Rmax_right. lra.
  - rewrite Rmin_right by lra. apply Rmax_left. lra.
Qed.

End Viewport.

Section Gestures.

Import TransformableElement Spec.

Lemma Point_eq (a b c d : R) : a = c -> b = d -> mkPoint a b = mkPoint c d.
Proof. intros -> ->. reflexivity. Qed.

Lemma base_of_with_base el b : base_of (with_base el b) = b.
Proof. destruct el; reflexivity. Qed.

Lemma start_of_with_base el b : start_of (with_base el b) = start_of el.
Proof. destruct el; reflexivity. Qed.

Lemma end_of_with_base el b : end_of (with_base el b) = end_of el.
Proof. destruct el; reflexivity. Qed.

(** C4. Drag rule: a drag move puts the position at the snapshot's
    position plus the pointer displacement divided by the zoom, keeps the
    width, height and rotation of the snapshot, and translates the start
    and the end of an arrow by the same vector. *)
Theorem drag_rule (S element : CanvasElement) (startPoint : Point)
    (a : option R) (c : option Point) (z : R) (e : MouseEvent) :
  let d := mkPoint ((clientX e - x startPoint) / z)
                   ((clientY e - y startPoint) / z) in
  exists u delta,
    handleInteractionMove (Some (mkInteraction drag startPoint S a c))
                          z element e
    = onUpdate u delta /\
    position (base_of u) = translate d (position (base_of S)) /\
    width (base_of u) = width (base_of S) /\
    height (base_of u) = height (base_of S) /\
    rotation (base_of u) = rotation (base_of S) /\
    start_of u = option_map (translate d) (start_of S) /\
    end_of u = option_map (translate d) (end_of S).
Proof.
  intros d. unfold handleInteractionMove; simpl.
  eexists. eexists. split; [reflexivity | ].
  destruct S as [b k1 k2 | b k | b s en k]; simpl;
    repeat split; reflexivity.
Qed.

(** The rotation of the specification, by minus the rotation of the
    snapshot, is what the resize branch computes with [cos(-rad)] and
    [sin(-rad)]. *)
Lemma rotate_neg (deg : R) (p : Point) :
  rotateVec (- deg) p
  = mkPoint (x p * Math.cos (- (deg * (Math.PI / 180)))
             - y p * Math.sin (- (deg * (Math.PI / 180))))
            (x p * Math.sin (- (deg * (Math.PI / 180)))
             + y p * Math.cos (- (deg * (Math.PI / 180)))).
Proof.
  unfold rotateVec, Math.cos, Math.sin, Math.PI.
  replace (- deg * (PI / 180)) with (- (deg * (PI / 180))) by ring.
  reflexivity.
Qed.

(** C5. Resize floor: a resize move sets the width to
    max(20, S.width + dx') and the height to max(20, S.height + dy'),
    where (dx', dy') is the world delta rotated by minus the rotation of
    the snapshot; both are at least 20. It holds of every element, so of
    every Note and Image. *)
Theorem resize_floor (S element : CanvasElement) (startPoint : Point)
    (a : option R) (c : option Point) (z : R) (e : MouseEvent) :
  let d := rotateVec (- rotation (base_of S)) (worldDelta z startPoint e) in
  exists u,
    handleInteractionMove (Some (mkInteraction resize startPoint S a c))
                          z element e
    = onUpdate u None /\
    width (base_of u) = Rmax 20 (width (base_of S) + x d) /\
    height (base_of u) = Rmax 20 (height (base_of S) + y d) /\
    20 <= width (base_of u) /\
    20 <= height (base_of u).
Proof.
  intros d. unfold d; clear d. rewrite rotate_neg.
  unfold handleInteractionMove, worldDelta, Math.max; simpl.
  eexists. split; [reflexivity | ].
  rewrite base_of_with_base; simpl.
  repeat split; try reflexivity; apply Rmax_l.
Qed.

(** C6. Resize anchor: for a Note with rotation 0, a resize move leaves
    the top-left corner, position - (width/2, height/2), where the
    snapshot has it. *)
Theorem resize_anchor (b : BaseElement) (content color : string)
    (element : CanvasElement) (startPoint : Point)
    (a : option R) (c : option Point) (z : R) (e : MouseEvent) :
  rotation b = 0 ->
  exists u,
    handleInteractionMove
      (Some (mkInteraction resize startPoint (NoteElement b content color)
                           a c))
      z element e
    = onUpdate u None /\
    topLeft (base_of u) = topLeft b.
Proof.
  intros Hrot. unfold handleInteractionMove; simpl.
  eexists. split; [reflexivity | ].
  unfold topLeft; simpl. rewrite Hrot.
  unfold Math.cos, Math.sin, Math.PI.
  replace (0 * (PI / 180)) with 0 by ring.
  rewrite Ropp_0, cos_0, sin_0.
  apply Point_eq; lra.
Qed.

Lemma resize_anchor_witness :
  exists u,
    handleInteractionMove
      (Some (mkInteraction resize (mkPoint 0 0)
               (NoteElement (mkBase "n" (mkPoint 0 0) 100 50 0 1)
                            "text" "bg-yellow-400")
               None None))
      1 (NoteElement (mkBase "n" (mkPoint 0 0) 100 50 0 1)
                     "text" "bg-yellow-400")
      (mkMove 30 (-200))
    = onUpdate u None /\
    topLeft (base_of u) = topLeft (mkBase "n" (mkPoint 0 0) 100 50 0 1).
Proof.
  apply (resize_anchor (mkBase "n" (mkPoint 0 0) 100 50 0 1)).
  reflexivity.
Defined.

(** Dragging an arrow: both endpoints move by the same vector, so the
    midpoint moves with them and the length and the angle stay. *)
Lemma midpoint_translate (d s en : Point) :
  midpoint (translate d s) (translate d en) = translate d (midpoint s en).
Proof. unfold midpoint, translate; simpl. apply Point_eq; lra. Qed.

Lemma distance_translate (d s en : Point) :
  distance (translate d s) (translate d en) = distance s en.
Proof. unfold distance, translate; simpl. f_equal. ring. Qed.

Lemma angle_translate (d s en : Point) :
  angle (translate d s) (translate d en) = angle s en.
Proof.
  unfold angle, translate; simpl.
  replace (y en + y d - (y s + y d)) with (y en - y s) by ring.
  replace (x en + x d - (x s + x d)) with (x en - x s) by ring.
  reflexivity.
Qed.

Lemma drag_arrow_invariant b s en k startPoint a c z element e :
  arrow_invariant (ArrowElement b s en k) ->
  exists b' s' en' delta,
    handleInteractionMove
      (Some (mkInteraction drag startPoint (ArrowElement b s en k) a c))
      z element e
    = onUpdate (ArrowElement b' s' en' k) delta /\
    arrow_invariant (ArrowElement b' s' en' k).
Proof.
  intros (Hp & Hw & Hr).
  unfold handleInteractionMove; simpl.
  do 4 eexists. split; [reflexivity | ].
  set (d := worldDelta z startPoint e).
  change (mkPoint (x s + (clientX e - x startPoint) / z)
                  (y s + (clientY e - y startPoint) / z))
    with (translate d s).
  change (mkPoint (x en + (clientX e - x startPoint) / z)
                  (y en + (clientY e - y startPoint) / z))
    with (translate d en).
  simpl. rewrite midpoint_translate, distance_translate, angle_translate.
  rewrite Hp. repeat split; assumption.
Qed.

(** Moving one endpoint: position and rotation are recomputed from the
    two endpoints, and the width is their distance floored at 10. *)
Lemma resize_arrow_invariant_floored ty b s en k startPoint a c z
    element e :
  ty = resize_arrow_start \/ ty = resize_arrow_end ->
  exists b' s' en',
    handleInteractionMove
      (Some (mkInteraction ty startPoint (ArrowElement b s en k) a c))
      z element e
    = onUpdate (ArrowElement b' s' en' k) None /\
    arrow_invariant_floored (ArrowElement b' s' en' k).
Proof.
  intros [-> | ->]; unfold handleInteractionMove; simpl;
    (do 3 eexists; split; [reflexivity | ]);
    simpl; repeat split; reflexivity.
Qed.

(** C3, as the code has it. For an arrow whose snapshot satisfies the
    invariant, a drag, resize-arrow-start or resize-arrow-end move
    produces an arrow whose position is the midpoint of its endpoints and
    whose rotation is their angle in degrees; its width is the distance
    of the endpoints after a drag, and max(10, distance) after moving an
    endpoint, which is the distance when the endpoints end at least 10
    apart. *)
Theorem arrow_invariant_floor (ty : InteractionType) (b : BaseElement)
    (s en : Point) (k : string) (startPoint : Point) (a : option R)
    (c : option Point) (z : R) (element : CanvasElement) (e : MouseEvent) :
  arrow_invariant (ArrowElement b s en k) ->
  ty = drag \/ ty = resize_arrow_start \/ ty = resize_arrow_end ->
  exists b' s' en' delta,
    handleInteractionMove
      (Some (mkInteraction ty startPoint (ArrowElement b s en k) a c))
      z element e
    = onUpdate (ArrowElement b' s' en' k) delta /\
    position b' = midpoint s' en' /\
    rotation b' = angle s' en' /\
    width b' = match ty with
               | drag => distance s' en'
               | _ => Rmax 10 (distance s' en')
               end /\
    (10 <= distance s' en' -> width b' = distance s' en').
Proof.
  intros Hinv [-> | Hty].
  - destruct (drag_arrow_invariant b s en k startPoint a c z element e Hinv)
      as (b' & s' & en' & delta & Hu & Hp & Hw & Hr).
    exists b', s', en', delta. repeat split; trivial.
  - destruct (resize_arrow_invariant_floored ty b s en k startPoint a c z
                element e Hty) as (b' & s' & en' & Hu & Hp & Hw & Hr).
    exists b', s', en', None. repeat split; trivial.
    + destruct Hty as [-> | ->]; exact Hw.
    + intros Hlen. rewrite Hw. apply Rmax_right. exact Hlen.
Qed.

Lemma arrow0_invariant : arrow_invariant arrow0.
Proof.
  unfold arrow0, arrow_invariant, midpoint, distance, angle; simpl.
  repeat split.
  - apply Point_eq; lra.
  - replace ((100 - 0) * (100 - 0) + (0 - 0) * (0 - 0)) with (100 * 100)
      by ring.
    rewrite sqrt_square; lra.
  - unfold Math.atan2.
    destruct (Rlt_dec 0 (100 - 0)) as [_ | H]; [ | lra].
    replace ((0 - 0) / (100 - 0)) with 0 by lra.
    rewrite atan_0. ring.
Qed.

Lemma arrow_invariant_floor_witness :
  exists b' s' en' delta,
    handleInteractionMove
      (Some (mkInteraction resize_arrow_end (mkPoint 0 0) arrow0 None None))
      1 arrow0 (mkMove 0 100)
    = onUpdate (ArrowElement b' s' en' "text-gray-800") delta /\
    position b' = midpoint s' en' /\
    rotation b' = angle s' en' /\
    width b' = Rmax 10 (distance s' en') /\
    (10 <= distance s' en' -> width b' = distance s' en').
Proof.
  apply (arrow_invariant_floor resize_arrow_end
           (mkBase "a" (mkPoint 50 0) 100 30 0 0) (mkPoint 0 0)
           (mkPoint 100 0) "text-gray-800" (mkPoint 0 0) None None 1
           arrow0 (mkMove 0 100)).
  - exact arrow0_invariant.
  - right; right; reflexivity.
Defined.

(** C3 as stated fails: the snapshot [arrow0] satisfies the invariant;
    moving its end by (-95, 0) at zoom 1 puts the end at (5, 0), 5 away
    from the start, and the width at 10. *)
Lemma arrow_invariant_counterexample :
  arrow_invariant arrow0 /\
  exists u,
    handleInteractionMove
      (Some (mkInteraction resize_arrow_end (mkPoint 0 0) arrow0 None None))
      1 arrow0 (mkMove (-95) 0)
    = onUpdate u None /\
    width (base_of u) = 10 /\
    arrow_length u = 5 /\
    ~ arrow_invariant u.
Proof.
  split; [exact arrow0_invariant | ].
  unfold handleInteractionMove, arrow0; simpl.
  eexists. split; [reflexivity | ]. simpl.
  assert (Hd : sqrt ((100 + (-95 - 0) / 1 - 0) * (100 + (-95 - 0) / 1 - 0)
                     + (0 + (0 - 0) / 1 - 0) * (0 + (0 - 0) / 1 - 0)) = 5).
  { replace ((100 + (-95 - 0) / 1 - 0) * (100 + (-95 - 0) / 1 - 0)
             + (0 + (0 - 0) / 1 - 0) * (0 + (0 - 0) / 1 - 0))
      with (5 * 5) by field.
    apply sqrt_square. lra. }
  unfold distance, Math.max, Math.sqrt; simpl. rewrite Hd.
  assert (Hm : Rmax 10 5 = 10) by (apply Rmax_left; lra).
  rewrite Hm. repeat split; trivial.
  intros (_ & Hw & _). lra.
Qed.

(** The element a move produces does not depend on the [element] prop of
    the moment, which only the drag delta reads. *)
Lemma produced_snapshot_only i z el1 el2 e :
  produced (handleInteractionMove i z el1 e)
  = produced (handleInteractionMove i z el2 e).
Proof.
  destruct i as [i | ]; [ | reflexivity].
  unfold handleInteractionMove.
  destruct (type i); try reflexivity.
Qed.

Lemma moves_last parent i z element es e :
  snd (moves parent i z element (es ++ [e]))
  = handleInteractionMove i z (fst (moves parent i z element es)) e.
Proof.
  unfold moves. rewrite fold_left_app. reflexivity.
Qed.

(** C7. Snapshot purity: with the interaction (kind, start point and
    snapshot), the zoom and the final pointer position fixed, the element
    the last move produces is the same after any two sequences of
    intermediate moves, whatever the parent makes of the updates; so it
    is the same after none, one or fifty of them. *)
Theorem snapshot_purity
    (parent : CanvasElement -> CanvasElement -> option Point
              -> CanvasElement)
    (i : option Interaction) (z : R) (element : CanvasElement)
    (es1 es2 : list MouseEvent) (e : MouseEvent) :
  produced (snd (moves parent i z element (es1 ++ [e])))
  = produced (snd (moves parent i z element (es2 ++ [e]))).
Proof.
  rewrite !moves_last. apply produced_snapshot_only.
Qed.

Lemma updates_true i z element e :
  updates i = true ->
  exists u d, handleInteractionMove i z element e = onUpdate u d.
Proof.
  destruct i as [[ty sp S a c] | ]; [ | discriminate].
  unfold handleInteractionMove, updates; simpl.
  destruct ty, S, c, a; intros H; try discriminate; eauto.
Qed.

Lemma updates_false i z element e :
  updates i = false ->
  forall u d, handleInteractionMove i z element e <> onUpdate u d.
Proof.
  destruct i as [[ty sp S a c] | ]; [ | discriminate].
  unfold handleInteractionMove, updates; simpl.
  destruct ty, S, c, a; intros H; discriminate.
Qed.

Lemma moves_cons_last parent i z element es e :
  fst (moves parent i z element (es ++ [e]))
  = match handleInteractionMove i z (fst (moves parent i z element es)) e with
    | onUpdate u d => parent (fst (moves parent i z element es)) u d
    | _ => fst (moves parent i z element es)
    end.
Proof.
  unfold moves. rewrite fold_left_app. reflexivity.
Qed.

Lemma moves_no_update parent i z element es :
  updates i = false -> fst (moves parent i z element es) = element.
Proof.
  intros Hu. induction es as [ | e es IH] using rev_ind; [reflexivity | ].
  rewrite moves_cons_last.
  pose proof (updates_false i z (fst (moves parent i z element es)) e Hu)
    as Hno.
  destruct (handleInteractionMove i z (fst (moves parent i z element es)) e);
    try exact IH.
  destruct (Hno _ _ eq_refl).
Qed.

(** With a parent that replaces the element by each update, the element
    after the last move is the same too, however many moves came before. *)
Lemma snapshot_purity_replacing i z element es1 es2 e :
  fst (moves replacing i z element (es1 ++ [e]))
  = fst (moves replacing i z element (es2 ++ [e])).
Proof.
  destruct (updates i) eqn:Hu.
  - rewrite !moves_cons_last.
    pose proof (produced_snapshot_only i z
                  (fst (moves replacing i z element es1))
                  (fst (moves replacing i z element es2)) e) as Hp.
    destruct (updates_true i z (fst (moves replacing i z element es1)) e Hu)
      as (u1 & d1 & H1).
    destruct (updates_true i z (fst (moves replacing i z element es2)) e Hu)
      as (u2 & d2 & H2).
    rewrite H1, H2 in *. simpl in Hp. unfold replacing. congruence.
  - rewrite !moves_no_update by exact Hu. reflexivity.
Qed.

(** The drag delta, the second argument of [onUpdate], is relative to the
    [element] prop of the moment: it is what [produced] leaves out. *)
Example drag_delta_reads_element :
  handleInteractionMove
    (Some (mkInteraction drag (mkPoint 0 0) elementE None None)) 1
    elementE (mkMove 30 0)
  <> handleInteractionMove
       (Some (mkInteraction drag (mkPoint 0 0) elementE None None)) 1
       arrow0 (mkMove 30 0).
Proof.
  unfold handleInteractionMove, elementE, arrow0; simpl.
  intros H. inversion H as [Hx]. lra.
Qed.

(** The scenario of the specification: a Note at (0,0), 100 by 50, dragged
    by (30,0) at zoom 1, is at (30,0); dragged by (0,0), it stays. *)
Example drag_scenario (n := NoteElement (mkBase "n" (mkPoint 0 0) 100 50 0 1)
                                        "text" "bg-yellow-400") :
  produced (handleInteractionMove
              (Some (mkInteraction drag (mkPoint 7 9) n None None)) 1
              n (mkMove 37 9))
  = onUpdate (NoteElement (mkBase "n" (mkPoint 30 0) 100 50 0 1)
                          "text" "bg-yellow-400") None /\
  produced (handleInteractionMove
              (Some (mkInteraction drag (mkPoint 7 9) n None None)) 1
              n (mkMove 7 9))
  = onUpdate n None.
Proof.
  unfold handleInteractionMove, n, set_position; simpl.
  split; do 3 f_equal; apply Point_eq; lra.
Qed.

(** The scenario of the specification: the end of the arrow from (0,0) to
    (100,0) moved by (0,100) is at (100,100); the position is (50,50), the
    rotation 45 degrees and the width the square root of 20000. *)
Example resize_arrow_end_scenario :
  exists b,
    handleInteractionMove
      (Some (mkInteraction resize_arrow_end (mkPoint 0 0) arrow0 None None))
      1 arrow0 (mkMove 0 100)
    = onUpdate (ArrowElement b (mkPoint 0 0)
                             (mkPoint (100 + (0 - 0) / 1) (0 + (100 - 0) / 1))
                             "text-gray-800") None /\
    position b = mkPoint 50 50 /\
    rotation b = 45 /\
    width b = sqrt 20000 /\
    141.42 < width b < 141.43.
Proof.
  unfold handleInteractionMove, arrow0; simpl.
  eexists. split; [reflexivity | ]. simpl.
  assert (Hs : (100 + (0 - 0) / 1 - 0) * (100 + (0 - 0) / 1 - 0)
               + (0 + (100 - 0) / 1 - 0) * (0 + (100 - 0) / 1 - 0) = 20000)
    by lra.
  assert (Hlo : 141.42 < sqrt 20000).
  { rewrite <- (sqrt_square 141.42) by lra. apply sqrt_lt_1; lra. }
  assert (Hhi : sqrt 20000 < 141.43).
  { rewrite <- (sqrt_square 141.43) by lra. apply sqrt_lt_1; lra. }
  unfold Math.max, Math.sqrt. rewrite Hs.
  rewrite (Rmax_right 10 (sqrt 20000)) by lra.
  split; [apply Point_eq; lra | ].
  split; [ | split; [reflexivity | split; assumption]].
  unfold Math.atan2.
  destruct (Rlt_dec 0 (100 + (0 - 0) / 1 - 0)) as [_ | Hn]; [ | lra].
  replace ((0 + (100 - 0) / 1 - 0) / (100 + (0 - 0) / 1 - 0)) with 1 by lra.
  rewrite atan_1. unfold Math.PI. field. apply PI_neq0.
Qed.

End Gestures.

Section Selection.

Import InfiniteCanvas Spec.

Lemma inSelectionBox_center st m el :
  inSelectionBox (selectionBox st m) el = true <-> centerInMarquee st m el.
Proof.
  unfold inSelectionBox, selectionBox, centerInMarquee, Math.min, Math.max;
    simpl.
  rewrite !andb_true_iff, !Rgeb_true, !Rleb_true.
  split; intros H; repeat split; try apply H; apply Rle_ge || apply Rge_le;
    apply H.
Qed.

Lemma NoDup_map_eq {A B : Type} (f : A -> B) (l : list A) (a b : A) :
  NoDup (map f l) -> In a l -> In b l -> f a = f b -> a = b.
Proof.
  induction l as [ | c l IH]; simpl; intros Hnd Ha Hb Hf; [contradiction | ].
  inversion Hnd as [ | ? ? Hnotin Hnd']; subst.
  destruct Ha as [-> | Ha], Hb as [-> | Hb]; trivial.
  - exfalso. apply Hnotin. rewrite Hf. apply in_map. exact Hb.
  - exfalso. apply Hnotin. rewrite <- Hf. apply in_map. exact Ha.
  - apply IH; assumption.
Qed.

Lemma ltb_length_nil {A : Type} (l : list A) :
  Nat.ltb 0 (List.length l) = false <-> l = [].
Proof.
  destruct l; simpl; split; intro H; trivial; discriminate.
Qed.

(** What a pointer-up that commits the marquee [m] does. *)
Lemma handleMouseUp_commit props e st m :
  marqueeRect st = Some m ->
  let ids := map idOf (filter (inSelectionBox (selectionBox st m))
                              (elements props)) in
  handleMouseUp props e st
  = (set_marqueeRect None (set_isPanning false st),
     match ids with
     | [] => []
     | _ => [onMarqueeSelect ids (shiftKey e)]
     end).
Proof.
  intros Hm ids. unfold handleMouseUp. rewrite Hm.
  fold idOf. fold ids. destruct ids; reflexivity.
Qed.

(** C8. Marquee center-only hit test: on the pointer-up that commits a
    marquee, the identifier of an element (identifiers being unique) is
    in the list handed to [onMarqueeSelect] exactly when the center of
    the element lies in the world rectangle of the marquee; width, height
    and rotation play no part. *)
Theorem marquee_center_only (props : Props) (e : MouseEvent) (st : State)
    (m : MarqueeRect) (el : CanvasElement) :
  marqueeRect st = Some m ->
  NoDup (map idOf (elements props)) ->
  In el (elements props) ->
  (exists ids shift,
      In (onMarqueeSelect ids shift) (snd (handleMouseUp props e st)) /\
      In (idOf el) ids)
  <-> centerInMarquee st m el.
Proof.
  intros Hm Hnd Hel.
  rewrite (handleMouseUp_commit props e st m Hm); simpl.
  rewrite <- inSelectionBox_center.
  set (hits := filter (inSelectionBox (selectionBox st m)) (elements props)).
  split.
  - intros (ids & shift & Hcall & Hid).
    assert (Hids : ids = map idOf hits).
    { destruct (map idOf hits) as [ | i rest]; simpl in Hcall.
      - contradiction.
      - destruct Hcall as [Hc | []]. inversion Hc. reflexivity. }
    subst ids. apply in_map_iff in Hid. destruct Hid as (el' & Heq & Hin).
    apply filter_In in Hin. destruct Hin as (Hin & Hbox).
    rewrite (NoDup_map_eq idOf (elements props) el el' Hnd Hel Hin
               (eq_sym Heq)).
    exact Hbox.
  - intros Hbox.
    assert (Hin : In el hits) by (apply filter_In; split; assumption).
    assert (Hid : In (idOf el) (map idOf hits)) by (apply in_map; exact Hin).
    exists (map idOf hits), (shiftKey e). split; [ | exact Hid].
    destruct (map idOf hits); [contradiction | left; reflexivity].
Qed.

Lemma elementE_outside : ~ centerInMarquee stateMarquee05 marquee05 elementE.
Proof.
  unfold centerInMarquee; simpl. intros ((_ & H) & _).
  assert (Rmax ((0 - 0) / 1) ((5 - 0) / 1) <= 5) by (apply Rmax_lub; lra).
  lra.
Qed.

(** The scenario of the specification: the body of E, the square from
    (-40,-40) to (60,60), covers the marquee from (0,0) to (5,5), and E is
    not selected, its center (10,10) being outside. *)
Lemma marquee_center_only_witness :
  (exists ids shift,
      In (onMarqueeSelect ids shift)
         (snd (handleMouseUp (mkProps [elementE] [])
                             (mkMouse 5 5 0 false false) stateMarquee05)) /\
      In (idOf elementE) ids)
  <-> centerInMarquee stateMarquee05 marquee05 elementE.
Proof.
  apply (marquee_center_only (mkProps [elementE] [])
           (mkMouse 5 5 0 false false) stateMarquee05 marquee05 elementE).
  - reflexivity.
  - simpl. constructor; [intros [] | constructor].
  - simpl. left. reflexivity.
Defined.

Lemma elementE_corners :
  getRotatedCorners elementE
  = [mkPoint (-40) (-40); mkPoint 60 (-40); mkPoint 60 60; mkPoint (-40) 60].
Proof.
  unfold getRotatedCorners, elementE, Math.cos, Math.sin, Math.PI; simpl.
  replace (0 * (PI / 180)) with 0 by ring. rewrite cos_0, sin_0.
  repeat (apply (f_equal2 cons); [apply Point_eq; lra | ]). reflexivity.
Qed.

Lemma elementE_not_selected :
  handleMouseUp (mkProps [elementE] []) (mkMouse 5 5 0 false false)
                stateMarquee05
  = (set_marqueeRect None (set_isPanning false stateMarquee05), []).
Proof.
  rewrite (handleMouseUp_commit (mkProps [elementE] [])
             (mkMouse 5 5 0 false false) stateMarquee05 marquee05 eq_refl);
    simpl.
  destruct (inSelectionBox (selectionBox stateMarquee05 marquee05) elementE)
    eqn:Hbox; [ | reflexivity].
  apply inSelectionBox_center in Hbox. destruct (elementE_outside Hbox).
Qed.

Lemma no_hits_nil st m (els : list CanvasElement) :
  (forall el, In el els -> ~ centerInMarquee st m el) ->
  filter (inSelectionBox (selectionBox st m)) els = [].
Proof.
  intros Hout. induction els as [ | el rest IH]; simpl; [reflexivity | ].
  destruct (inSelectionBox (selectionBox st m) el) eqn:Hbox.
  - apply inSelectionBox_center in Hbox.
    destruct (Hout el (or_introl eq_refl) Hbox).
  - apply IH. intros el' Hin. apply Hout. right. exact Hin.
Qed.

(** C10. Empty marquee commit is silent: the pointer-up that commits a
    marquee discards it; when no center lies in its world rectangle it
    calls nothing; it never hands [onMarqueeSelect] an empty list and
    never calls [onSelectElement]. The pointer-down that starts a marquee
    is what calls [onSelectElement(null, shiftKey)]. *)
Theorem empty_marquee_silent (props : Props) (e : MouseEvent) (st : State)
    (m : MarqueeRect) :
  marqueeRect st = Some m ->
  marqueeRect (fst (handleMouseUp props e st)) = None /\
  ((forall el, In el (elements props) -> ~ centerInMarquee st m el) ->
   snd (handleMouseUp props e st) = []) /\
  (forall ids shift,
      In (onMarqueeSelect ids shift) (snd (handleMouseUp props e st)) ->
      ids <> []) /\
  (forall i shift,
      ~ In (onSelectElement i shift) (snd (handleMouseUp props e st))) /\
  (forall e0 st0,
      button e0 = 0%nat -> onElement e0 = false ->
      isSpacebarPressed st0 = false ->
      handleMouseDown e0 st0
      = (set_marqueeRect
           (Some (mkMarquee (mkPoint (clientX e0) (clientY e0))
                            (mkPoint (clientX e0) (clientY e0)))) st0,
         [onSelectElement None (shiftKey e0)])).
Proof.
  intros Hm. rewrite (handleMouseUp_commit props e st m Hm); simpl.
  repeat split.
  - intros Hout. rewrite (no_hits_nil st m _ Hout). reflexivity.
  - intros ids shift Hin.
    destruct (map idOf _) as [ | i rest]; simpl in Hin; [contradiction | ].
    destruct Hin as [Hc | []]. inversion Hc. discriminate.
  - intros i shift Hin.
    destruct (map idOf _) as [ | i' rest]; simpl in Hin; [contradiction | ].
    destruct Hin as [Hc | []]. discriminate.
  - intros e0 st0 Hb He Hs. unfold handleMouseDown.
    rewrite Hb, He, Hs. reflexivity.
Qed.

Lemma empty_marquee_silent_witness :
  snd (handleMouseUp (mkProps [elementE] []) (mkMouse 5 5 0 false false)
                     stateMarquee05) = [].
Proof.
  apply (empty_marquee_silent (mkProps [elementE] [])
           (mkMouse 5 5 0 false false) stateMarquee05 marquee05 eq_refl).
  simpl. intros el [<- | []]. exact elementE_outside.
Defined.

Lemma includes_In (ids : list string) (i : string) :
  includes ids i = true <-> In i ids.
Proof.
  unfold includes. rewrite existsb_exists. split.
  - intros (j & Hin & Heq). apply String.eqb_eq in Heq. subst. exact Hin.
  - intros Hin. exists i. split; [exact Hin | apply String.eqb_refl].
Qed.

(** The [filter] of [handleGenerateClick] gathers the selected elements. *)
Lemma filter_includes props :
  filter (fun el => includes (selectedElementIds props) (id (base_of el)))
         (elements props)
  = selectedElements props.
Proof.
  unfold selectedElements. apply filter_ext. intros el.
  destruct (in_dec string_dec (id (base_of el)) (selectedElementIds props))
    as [Hin | Hout].
  - apply includes_In. exact Hin.
  - destruct (includes (selectedElementIds props) (id (base_of el))) eqn:Hi;
      [ | reflexivity].
    apply includes_In in Hi. contradiction.
Qed.

(** C9. Empty-selection generate no-op: the generate trigger calls
    [onGenerate] exactly when the list of the selected elements is not
    empty, then once and with that list; it changes no state; with an
    empty selection it calls nothing. *)
Theorem generate_click (props : Props) (st : State) :
  fst (handleGenerateClick props st) = st /\
  snd (handleGenerateClick props st)
  = match selectedElements props with
    | [] => []
    | _ => [onGenerate (selectedElements props)]
    end /\
  ((exists els, In (onGenerate els) (snd (handleGenerateClick props st)))
   <-> selectedElements props <> []).
Proof.
  unfold handleGenerateClick. rewrite filter_includes.
  destruct (selectedElements props) as [ | el rest]; simpl.
  - split; [reflexivity | split; [reflexivity | split]].
    + intros (els & []).
    + intros Hne. destruct (Hne eq_refl).
  - split; [reflexivity | split; [reflexivity | split]].
    + intros _. discriminate.
    + intros _. eexists. left. reflexivity.
Qed.

End Selection.

(** * Further properties of the canvas *)

Section CanvasGestures.

Import InfiniteCanvas.

Lemma State_eta st :
  mkState (pan st) (zoom st) (isPanning st) (startPan st)
          (isSpacebarPressed st) (marqueeRect st) = st.
Proof. destruct st; reflexivity. Qed.

Lemma Point_eta p : mkPoint (x p) (y p) = p.
Proof. destruct p; reflexivity. Qed.

(** X1. A wheel event with [deltaY = 0] changes nothing when the zoom is
    within its bounds: neither the zoom nor the pan. *)
Theorem wheel_zero_delta (canvas : option DOMRect) (e : WheelEvent)
    (st : State) :
  MIN_ZOOM <= zoom st <= MAX_ZOOM ->
  deltaY e = 0 ->
  handleWheel canvas e st = st.
Proof.
  intros [Hlo Hhi] Hd. destruct canvas as [rect | ]; [ | reflexivity].
  destruct st as [[px py] z ip sp sb m]; simpl in *.
  unfold handleWheel, set_pan, set_zoom, Math.max, Math.min; simpl.
  rewrite Hd.
  replace (z * (1 - 0 * (1 / 1000))) with z by ring.
  rewrite (Rmin_right MAX_ZOOM z) by exact Hhi.
  rewrite (Rmax_right MIN_ZOOM z) by exact Hlo.
  assert (z <> 0) by (unfold MIN_ZOOM in Hlo; lra).
  f_equal. f_equal; field; assumption.
Qed.

Lemma wheel_zero_delta_witness :
  handleWheel (Some (mkRect 3 4)) (mkWheel 100 50 0) initialState
  = initialState.
Proof.
  apply (wheel_zero_delta (Some (mkRect 3 4)) (mkWheel 100 50 0)
                          initialState).
  - unfold MIN_ZOOM, MAX_ZOOM; simpl; lra.
  - reflexivity.
Defined.

(** X2. The direction of the wheel: with the zoom within its bounds, a
    wheel event with [deltaY <= 0] never lowers the zoom and one with
    [deltaY >= 0] never raises it. *)
Theorem wheel_direction (canvas : option DOMRect) (e : WheelEvent)
    (st : State) :
  MIN_ZOOM <= zoom st <= MAX_ZOOM ->
  (deltaY e <= 0 -> zoom st <= zoom (handleWheel canvas e st)) /\
  (0 <= deltaY e -> zoom (handleWheel canvas e st) <= zoom st).
Proof.
  intros [Hlo Hhi]. pose proof MIN_ZOOM_pos as Hpos.
  destruct canvas as [rect | ]; simpl; [ | split; intros; lra].
  unfold Math.max, Math.min. split; intros Hd.
  - apply Rle_trans with (Rmin MAX_ZOOM (zoom st * (1 - deltaY e * (1 / 1000)))).
    + apply Rmin_glb; [exact Hhi | nra].
    + apply Rmax_r.
  - apply Rmax_lub; [exact Hlo | ].
    apply Rle_trans with (zoom st * (1 - deltaY e * (1 / 1000))).
    + apply Rmin_r.
    + nra.
Qed.

Lemma wheel_direction_witness :
  (deltaY (mkWheel 100 100 (-1000)) <= 0 ->
   zoom initialState
   <= zoom (handleWheel (Some (mkRect 0 0)) (mkWheel 100 100 (-1000))
                        initialState)) /\
  (0 <= deltaY (mkWheel 100 100 (-1000)) ->
   zoom (handleWheel (Some (mkRect 0 0)) (mkWheel 100 100 (-1000))
                     initialState)
   <= zoom initialState).
Proof.
  apply (wheel_direction (Some (mkRect 0 0)) (mkWheel 100 100 (-1000))
                         initialState).
  unfold MIN_ZOOM, MAX_ZOOM; simpl; lra.
Defined.

Lemma handleMouseMove_panning e st :
  isPanning st = true ->
  handleMouseMove e st
  = set_pan (mkPoint (clientX e - x (startPan st))
                     (clientY e - y (startPan st))) st.
Proof. intros Hp. unfold handleMouseMove. rewrite Hp. reflexivity. Qed.

(** While the canvas pans, a move puts the pan at the pointer minus
    [startPan] and keeps the rest. *)
Lemma mouseMoves_panning es : forall st,
  isPanning st = true ->
  isPanning (mouseMoves es st) = true /\
  startPan (mouseMoves es st) = startPan st /\
  zoom (mouseMoves es st) = zoom st /\
  marqueeRect (mouseMoves es st) = marqueeRect st /\
  isSpacebarPressed (mouseMoves es st) = isSpacebarPressed st /\
  pan (mouseMoves es st)
  = match rev es with
    | [] => pan st
    | e :: _ => mkPoint (clientX e - x (startPan st))
                        (clientY e - y (startPan st))
    end.
Proof.
  induction es as [ | e es IH] using rev_ind; intros st Hp.
  - simpl. repeat split; trivial.
  - destruct (IH st Hp) as (Hp' & Hs & Hz & Hm & Hk & _).
    unfold mouseMoves in *. rewrite fold_left_app, rev_app_distr.
    cbn [fold_left rev app].
    rewrite (handleMouseMove_panning e _ Hp').
    cbn [set_pan isPanning startPan zoom marqueeRect isSpacebarPressed pan].
    rewrite Hs. repeat split; assumption.
Qed.

(** X3. Panning: with the space bar down, a left pointer-down off the
    elements followed by moves calls nothing, keeps the zoom, and leaves the
    pan at the old pan plus the pointer's displacement since the
    pointer-down, however many moves there were; the world point under
    the pointer is the one that was under it at the pointer-down. *)
Theorem pan_gesture (e0 : MouseEvent) (es : list MouseEvent)
    (e : MouseEvent) (st : State) :
  isSpacebarPressed st = true ->
  button e0 = 0%nat ->
  onElement e0 = false ->
  let st' := mouseMoves (es ++ [e]) (fst (handleMouseDown e0 st)) in
  snd (handleMouseDown e0 st) = [] /\
  zoom st' = zoom st /\
  pan st' = mkPoint (x (pan st) + (clientX e - clientX e0))
                    (y (pan st) + (clientY e - clientY e0)) /\
  screenToWorld st' (mkPoint (clientX e) (clientY e))
  = screenToWorld st (mkPoint (clientX e0) (clientY e0)).
Proof.
  intros Hs Hb He st'.
  assert (Hd : handleMouseDown e0 st
               = (set_startPan (mkPoint (clientX e0 - x (pan st))
                                        (clientY e0 - y (pan st)))
                               (set_isPanning true st), [])).
  { unfold handleMouseDown. rewrite Hb, He, Hs. reflexivity. }
  unfold st'. rewrite Hd. simpl fst. simpl snd.
  destruct (mouseMoves_panning (es ++ [e]) _
              (eq_refl : isPanning (set_startPan
                                      (mkPoint (clientX e0 - x (pan st))
                                               (clientY e0 - y (pan st)))
                                      (set_isPanning true st)) = true))
    as (_ & _ & Hz & _ & _ & Hp).
  rewrite rev_app_distr in Hp. simpl in Hp, Hz.
  split; [reflexivity | ]. split; [exact Hz | ].
  assert (Hpan : pan
                   (mouseMoves (es ++ [e])
                      (set_startPan (mkPoint (clientX e0 - x (pan st))
                                             (clientY e0 - y (pan st)))
                                    (set_isPanning true st)))
                 = mkPoint (x (pan st) + (clientX e - clientX e0))
                           (y (pan st) + (clientY e - clientY e0))).
  { rewrite Hp. f_equal; ring. }
  split; [exact Hpan | ].
  unfold screenToWorld. rewrite Hpan, Hz. simpl. f_equal; f_equal; ring.
Qed.

Lemma pan_gesture_witness :
  pan (mouseMoves ([mkMouse 20 20 0 false false] ++ [mkMouse 40 5 0 false false])
         (fst (handleMouseDown (mkMouse 10 10 0 false false)
                 (set_isSpacebarPressed true initialState))))
  = mkPoint (x (pan (set_isSpacebarPressed true initialState)) + (40 - 10))
            (y (pan (set_isSpacebarPressed true initialState)) + (5 - 10)).
Proof.
  apply (pan_gesture (mkMouse 10 10 0 false false)
           [mkMouse 20 20 0 false false] (mkMouse 40 5 0 false false)
           (set_isSpacebarPressed true initialState));
    reflexivity.
Defined.

Lemma handleMouseMove_marquee e st m :
  isPanning st = false ->
  marqueeRect st = Some m ->
  handleMouseMove e st
  = set_marqueeRect
      (Some (mkMarquee (m_start m) (mkPoint (clientX e) (clientY e)))) st.
Proof.
  intros Hp Hm. unfold handleMouseMove. rewrite Hp, Hm. reflexivity.
Qed.

(** While a marquee is drawn, a move puts its end at the pointer and
    keeps its start and the rest. *)
Lemma mouseMoves_marquee es : forall st m,
  isPanning st = false ->
  marqueeRect st = Some m ->
  mouseMoves es st
  = set_marqueeRect
      (Some (mkMarquee (m_start m)
                       (match rev es with
                        | [] => m_end m
                        | e :: _ => mkPoint (clientX e) (clientY e)
                        end))) st.
Proof.
  induction es as [ | e es IH] using rev_ind; intros st m Hp Hm.
  - destruct st; simpl in *. subst. destruct m; reflexivity.
  - unfold mouseMoves in *. rewrite fold_left_app, rev_app_distr.
    cbn [fold_left rev app]. rewrite (IH st m Hp Hm).
    set (m' := mkMarquee (m_start m) _).
    rewrite (handleMouseMove_marquee e (set_marqueeRect (Some m') st) m' Hp
               eq_refl).
    reflexivity.
Qed.

Lemma marquee_moves (e0 : MouseEvent) (es : list MouseEvent)
    (e : MouseEvent) (st : State) :
  isSpacebarPressed st = false ->
  isPanning st = false ->
  button e0 = 0%nat ->
  onElement e0 = false ->
  mouseMoves (es ++ [e]) (fst (handleMouseDown e0 st))
  = set_marqueeRect
      (Some (mkMarquee (mkPoint (clientX e0) (clientY e0))
                       (mkPoint (clientX e) (clientY e)))) st.
Proof.
  intros Hs Hp Hb He.
  unfold handleMouseDown. rewrite Hb, He, Hs. simpl fst.
  set (m0 := mkMarquee (mkPoint (clientX e0) (clientY e0))
                       (mkPoint (clientX e0) (clientY e0))).
  rewrite (mouseMoves_marquee (es ++ [e]) (set_marqueeRect (Some m0) st) m0
             Hp eq_refl).
  rewrite rev_app_distr. reflexivity.
Qed.


(** X4. Drawing a marquee: without the space bar and without a pan under
    way, a left pointer-down off the elements followed by moves leaves a
    marquee from the pointer-down point to the last pointer point,
    whatever the moves between, and the pan and the zoom as they were. *)
Theorem marquee_gesture (e0 : MouseEvent) (es : list MouseEvent)
    (e : MouseEvent) (st : State) :
  isSpacebarPressed st = false ->
  isPanning st = false ->
  button e0 = 0%nat ->
  onElement e0 = false ->
  mouseMoves (es ++ [e]) (fst (handleMouseDown e0 st))
  = set_marqueeRect
      (Some (mkMarquee (mkPoint (clientX e0) (clientY e0))
                       (mkPoint (clientX e) (clientY e)))) st.
Proof.
  intros Hs Hp Hb He. apply marquee_moves; assumption.
Qed.

Lemma marquee_gesture_witness :
  mouseMoves ([mkMouse 3 3 0 false false] ++ [mkMouse 5 5 0 false false])
             (fst (handleMouseDown (mkMouse 0 0 0 true false) initialState))
  = set_marqueeRect
      (Some (mkMarquee (mkPoint 0 0) (mkPoint 5 5))) initialState.
Proof.
  apply (marquee_gesture (mkMouse 0 0 0 true false)
           [mkMouse 3 3 0 false false] (mkMouse 5 5 0 false false)
           initialState); reflexivity.
Defined.

(** X5. A pointer-up (or the pointer leaving the canvas) ends whatever was
    under way: afterwards there is no pan and no marquee, the pan offset
    and the zoom are as before, further moves change nothing, and a second
    pointer-up changes nothing and calls nothing. *)
Theorem mouseUp_ends_gestures (props props' : Props) (e e' : MouseEvent)
    (es : list MouseEvent) (st : State) :
  let st' := fst (handleMouseUp props e st) in
  isPanning st' = false /\ marqueeRect st' = None /\
  pan st' = pan st /\ zoom st' = zoom st /\
  mouseMoves es st' = st' /\
  handleMouseUp props' e' st' = (st', []).
Proof.
  intros st'.
  assert (Hst : st' = set_marqueeRect None (set_isPanning false st)).
  { unfold st', handleMouseUp. destruct (marqueeRect st) eqn:Hm; simpl.
    - reflexivity.
    - unfold set_marqueeRect, set_isPanning; simpl. rewrite Hm. reflexivity. }
  rewrite Hst.
  split; [reflexivity | ]. split; [reflexivity | ].
  split; [reflexivity | ]. split; [reflexivity | ].
  split; [ | reflexivity].
  induction es as [ | a es IH]; [reflexivity | exact IH].
Qed.

(** X6. The space bar: outside a text field, pressing Space and releasing
    it brings the canvas back to the state it was in (with the bar up);
    while it is down, a left pointer-down off the elements starts a pan
    and calls nothing, so that the selection stays, and sets no marquee;
    Space pressed in a text field changes nothing. *)
Theorem space_bar (k : KeyboardEvent) (e : MouseEvent) (st : State) :
  code k = "Space"%string ->
  isSpacebarPressed st = false ->
  button e = 0%nat ->
  onElement e = false ->
  (String.eqb (tagName k) "TEXTAREA" || String.eqb (tagName k) "INPUT"
   || isContentEditable k = true -> handleKeyDown k st = st) /\
  (String.eqb (tagName k) "TEXTAREA" || String.eqb (tagName k) "INPUT"
   || isContentEditable k = false ->
   handleKeyUp k (handleKeyDown k st) = st /\
   snd (handleMouseDown e (handleKeyDown k st)) = [] /\
   isPanning (fst (handleMouseDown e (handleKeyDown k st))) = true /\
   marqueeRect (fst (handleMouseDown e (handleKeyDown k st)))
   = marqueeRect st).
Proof.
  intros Hc Hs Hb He. unfold handleKeyDown, handleKeyUp. rewrite Hc; simpl.
  split; intros Ht; rewrite Ht; [reflexivity | ].
  unfold handleMouseDown. rewrite Hb, He. simpl.
  repeat split. unfold set_isSpacebarPressed; simpl.
  rewrite <- Hs. apply State_eta.
Qed.

Lemma space_bar_witness :
  handleKeyUp (mkKey "Space" "DIV" false)
              (handleKeyDown (mkKey "Space" "DIV" false) initialState)
  = initialState.
Proof.
  apply (space_bar (mkKey "Space" "DIV" false) (mkMouse 0 0 0 false false)
                   initialState); reflexivity.
Defined.

(** X7. Resetting the view: the zoom is 1, within its bounds, and the
    world origin is under the centre of the canvas (of the window when
    there is no canvas). *)
Theorem resetView_centres_origin (canvas : option Size) (window : Size)
    (st : State) :
  let c := match canvas with Some c => c | None => window end in
  zoom (resetView canvas window st) = 1 /\
  MIN_ZOOM <= zoom (resetView canvas window st) <= MAX_ZOOM /\
  screenToWorld (resetView canvas window st)
                (mkPoint (s_width c / 2) (s_height c / 2))
  = mkPoint 0 0.
Proof.
  intros c. unfold c, resetView, screenToWorld, MIN_ZOOM, MAX_ZOOM.
  destruct canvas as [c' | ]; simpl;
    (split; [reflexivity | split; [lra | f_equal; field]]).
Qed.

End CanvasGestures.

Section SelectionBox.

Import InfiniteCanvas.

(** The four corners, spelled out. *)
Lemma getRotatedCorners_eq el :
  let cx := x (position (base_of el)) in
  let cy := y (position (base_of el)) in
  let c := cos (rotation (base_of el) * (PI / 180)) in
  let s := sin (rotation (base_of el) * (PI / 180)) in
  let hw := width (base_of el) / 2 in
  let hh := height (base_of el) / 2 in
  getRotatedCorners el
  = [mkPoint (cx + - hw * c - - hh * s) (cy + - hw * s + - hh * c);
     mkPoint (cx + hw * c - - hh * s) (cy + hw * s + - hh * c);
     mkPoint (cx + hw * c - hh * s) (cy + hw * s + hh * c);
     mkPoint (cx + - hw * c - hh * s) (cy + - hw * s + hh * c)].
Proof. reflexivity. Qed.

(** X8. The rotated corners are four, they go around the centre: the
    first and the third, and the second and the fourth, are opposite each
    other through the position of the element, whatever the rotation. *)
Theorem corners_around_centre (el : CanvasElement) :
  exists c1 c2 c3 c4,
    getRotatedCorners el = [c1; c2; c3; c4] /\
    mkPoint ((x c1 + x c3) / 2) ((y c1 + y c3) / 2) = position (base_of el) /\
    mkPoint ((x c2 + x c4) / 2) ((y c2 + y c4) / 2) = position (base_of el).
Proof.
  rewrite getRotatedCorners_eq. do 4 eexists. split; [reflexivity | ].
  destruct (position (base_of el)) as [cx cy]; simpl.
  split; f_equal; field.
Qed.

(** X9. Every rotated corner is half a diagonal away from the position of
    the element: the square of its distance is (width^2 + height^2) / 4,
    whatever the rotation. *)
Theorem corners_half_diagonal (el : CanvasElement) (c : Point) :
  In c (getRotatedCorners el) ->
  (x c - x (position (base_of el))) * (x c - x (position (base_of el)))
  + (y c - y (position (base_of el))) * (y c - y (position (base_of el)))
  = (width (base_of el) * width (base_of el)
     + height (base_of el) * height (base_of el)) / 4.
Proof.
  rewrite getRotatedCorners_eq.
  pose proof (sin2_cos2 (rotation (base_of el) * (PI / 180))) as Hsc.
  unfold Rsqr in Hsc.
  set (co := cos _) in *. set (si := sin _) in *.
  simpl. intros [<- | [<- | [<- | [<- | []]]]]; simpl; nra.
Qed.

Lemma corners_half_diagonal_witness :
  (60 - 10) * (60 - 10) + (60 - 10) * (60 - 10)
  = (100 * 100 + 100 * 100) / 4.
Proof.
  apply (corners_half_diagonal Spec.elementE (mkPoint 60 60)).
  rewrite getRotatedCorners_eq. simpl.
  replace (0 * (PI / 180)) with 0 by ring. rewrite cos_0, sin_0.
  right. right. left. f_equal; lra.
Defined.

(** X10. A full turn more gives the same corners: the rotation counts
    modulo 360 degrees. *)
Theorem corners_full_turn (el : CanvasElement) :
  getRotatedCorners
    (with_base el (set_rotation (rotation (base_of el) + 360) (base_of el)))
  = getRotatedCorners el.
Proof.
  rewrite !getRotatedCorners_eq.
  replace (base_of (with_base el
                      (set_rotation (rotation (base_of el) + 360)
                                    (base_of el))))
    with (set_rotation (rotation (base_of el) + 360) (base_of el))
    by (destruct el; reflexivity).
  simpl.
  replace ((rotation (base_of el) + 360) * (PI / 180))
    with (rotation (base_of el) * (PI / 180) + 2 * INR 1 * PI)
    by (simpl; field).
  rewrite cos_period, sin_period. reflexivity.
Qed.

(** X11. An element that is not rotated has the corners of its rectangle:
    top-left, top-right, bottom-right, bottom-left. *)
Theorem corners_unrotated (el : CanvasElement) :
  rotation (base_of el) = 0 ->
  let cx := x (position (base_of el)) in
  let cy := y (position (base_of el)) in
  let hw := width (base_of el) / 2 in
  let hh := height (base_of el) / 2 in
  getRotatedCorners el
  = [mkPoint (cx - hw) (cy - hh); mkPoint (cx + hw) (cy - hh);
     mkPoint (cx + hw) (cy + hh); mkPoint (cx - hw) (cy + hh)].
Proof.
  intros Hr. rewrite getRotatedCorners_eq. simpl. rewrite Hr.
  replace (0 * (PI / 180)) with 0 by ring. rewrite cos_0, sin_0.
  repeat (apply (f_equal2 cons); [f_equal; ring | ]). reflexivity.
Qed.

Lemma corners_unrotated_witness :
  getRotatedCorners Spec.elementE
  = [mkPoint (10 - 100 / 2) (10 - 100 / 2);
     mkPoint (10 + 100 / 2) (10 - 100 / 2);
     mkPoint (10 + 100 / 2) (10 + 100 / 2);
     mkPoint (10 - 100 / 2) (10 + 100 / 2)].
Proof.
  apply (corners_unrotated Spec.elementE). reflexivity.
Defined.

Lemma fold_min_le l : forall a,
  fold_left Math.min l a <= a /\
  (forall b, In b l -> fold_left Math.min l a <= b) /\
  In (fold_left Math.min l a) (a :: l).
Proof.
  unfold Math.min.
  induction l as [ | c l IH]; intros a; simpl.
  - split; [lra | split; [intros b [] | left; reflexivity]].
  - destruct (IH (Rmin a c)) as (H1 & H2 & H3).
    pose proof (Rmin_l a c). pose proof (Rmin_r a c).
    split; [lra | split].
    + intros b [<- | Hb]; [lra | apply H2; exact Hb].
    + destruct H3 as [H3 | H3]; [ | right; right; exact H3].
      rewrite <- H3. unfold Rmin. destruct (Rle_dec a c); auto.
Qed.

Lemma fold_max_ge l : forall a,
  a <= fold_left Math.max l a /\
  (forall b, In b l -> b <= fold_left Math.max l a) /\
  In (fold_left Math.max l a) (a :: l).
Proof.
  unfold Math.max.
  induction l as [ | c l IH]; intros a; simpl.
  - split; [lra | split; [intros b [] | left; reflexivity]].
  - destruct (IH (Rmax a c)) as (H1 & H2 & H3).
    pose proof (Rmax_l a c). pose proof (Rmax_r a c).
    split; [lra | split].
    + intros b [<- | Hb]; [lra | apply H2; exact Hb].
    + destruct H3 as [H3 | H3]; [ | right; right; exact H3].
      rewrite <- H3. unfold Rmax. destruct (Rle_dec a c); auto.
Qed.

Lemma minOf_spec l b : In b l -> minOf l <= b /\ In (minOf l) l.
Proof.
  destruct l as [ | a l]; [intros [] | ]. intros Hb. unfold minOf.
  destruct (fold_min_le l a) as (H1 & H2 & H3). split; [ | exact H3].
  destruct Hb as [<- | Hb]; [exact H1 | apply H2; exact Hb].
Qed.

Lemma maxOf_spec l b : In b l -> b <= maxOf l /\ In (maxOf l) l.
Proof.
  destruct l as [ | a l]; [intros [] | ]. intros Hb. unfold maxOf.
  destruct (fold_max_ge l a) as (H1 & H2 & H3). split; [ | exact H3].
  destruct Hb as [<- | Hb]; [exact H1 | apply H2; exact Hb].
Qed.

(** X12. There is a selection box exactly when some element is selected
    (an identifier in the selection that no element carries does not
    count). *)
Theorem selectionBbox_none (props : Props) :
  selectionBbox props = None <-> Spec.selectedElements props = [].
Proof.
  unfold selectionBbox. rewrite filter_includes.
  destruct (Spec.selectedElements props); simpl; split; intros H;
    trivial; discriminate.
Qed.

(** X13. The selection box is the bounding box of the rotated corners of
    the selected elements: every corner of every selected element lies in
    it, each of its four sides goes through one of those corners, and its
    width and height are the differences of its sides, not negative. *)
Theorem selectionBbox_bounds (props : Props) (bbox : BoundingBox) :
  selectionBbox props = Some bbox ->
  let corners := flat_map getRotatedCorners (Spec.selectedElements props) in
  (forall el c,
      In el (Spec.selectedElements props) -> In c (getRotatedCorners el) ->
      minX bbox <= x c <= maxX bbox /\ minY bbox <= y c <= maxY bbox) /\
  In (minX bbox) (map x corners) /\ In (maxX bbox) (map x corners) /\
  In (minY bbox) (map y corners) /\ In (maxY bbox) (map y corners) /\
  box_width bbox = maxX bbox - minX bbox /\ 0 <= box_width bbox /\
  box_height bbox = maxY bbox - minY bbox /\ 0 <= box_height bbox.
Proof.
  intros Hb corners.
  unfold selectionBbox in Hb. rewrite filter_includes in Hb.
  destruct (Spec.selectedElements props) as [ | el0 rest] eqn:Hsel;
    [discriminate | ].
  cbn [List.length Nat.eqb] in Hb.
  assert (Hc0 : exists c0, In c0 corners).
  { eexists. unfold corners. apply in_flat_map. exists el0.
    split; [left; reflexivity | ].
    rewrite getRotatedCorners_eq. left. reflexivity. }
  destruct Hc0 as (c0 & Hc0).
  fold corners in Hb.
  pose proof (minOf_spec (map x corners) (x c0) (in_map x _ _ Hc0)) as [Hx1 Hx2].
  pose proof (maxOf_spec (map x corners) (x c0) (in_map x _ _ Hc0)) as [Hx3 Hx4].
  pose proof (minOf_spec (map y corners) (y c0) (in_map y _ _ Hc0)) as [Hy1 Hy2].
  pose proof (maxOf_spec (map y corners) (y c0) (in_map y _ _ Hc0)) as [Hy3 Hy4].
  assert (Hall : forall c, In c corners ->
                   minOf (map x corners) <= x c <= maxOf (map x corners) /\
                   minOf (map y corners) <= y c <= maxOf (map y corners)).
  { intros c Hin.
    pose proof (minOf_spec (map x corners) (x c) (in_map x _ _ Hin)) as [? _].
    pose proof (maxOf_spec (map x corners) (x c) (in_map x _ _ Hin)) as [? _].
    pose proof (minOf_spec (map y corners) (y c) (in_map y _ _ Hin)) as [? _].
    pose proof (maxOf_spec (map y corners) (y c) (in_map y _ _ Hin)) as [? _].
    repeat split; assumption. }
  revert Hb Hx1 Hx2 Hx3 Hx4 Hy1 Hy2 Hy3 Hy4 Hall.
  generalize (minOf (map x corners)) (maxOf (map x corners))
             (minOf (map y corners)) (maxOf (map y corners)).
  intros x0 x1 y0 y1 Hb. injection Hb as <-.
  cbn [minX maxX minY maxY box_width box_height].
  intros Hx1 Hx2 Hx3 Hx4 Hy1 Hy2 Hy3 Hy4 Hall.
  split.
  { intros el c Hel Hc. apply Hall. unfold corners.
    apply in_flat_map. exists el. split; assumption. }
  split; [exact Hx2 | ]. split; [exact Hx4 | ].
  split; [exact Hy2 | ]. split; [exact Hy4 | ].
  split; [reflexivity | ]. split; [lra | ].
  split; [reflexivity | lra].
Qed.

Lemma selectionBbox_bounds_witness :
  exists bbox,
    selectionBbox (mkProps [Spec.elementE] ["E"%string]) = Some bbox /\
    box_width bbox = maxX bbox - minX bbox.
Proof.
  eexists. split; [reflexivity | ].
  apply (selectionBbox_bounds (mkProps [Spec.elementE] ["E"%string])).
  reflexivity.
Defined.

(** X14. The generate button sits 10 pixels right of and below the screen
    place of the bottom-right corner of the selection box: with the zoom
    within its bounds, 10 pixels up and left of the button is the screen
    point that [screenToWorld] sends to (maxX, maxY). *)
Theorem generate_button_anchor (st : State) (bbox : BoundingBox) :
  MIN_ZOOM <= zoom st <= MAX_ZOOM ->
  screenToWorld st
    (mkPoint (x (generateButtonPosition st bbox) - 10)
             (y (generateButtonPosition st bbox) - 10))
  = mkPoint (maxX bbox) (maxY bbox).
Proof.
  intros [Hlo _]. unfold MIN_ZOOM in Hlo.
  unfold screenToWorld, generateButtonPosition; simpl.
  f_equal; field; lra.
Qed.

Lemma generate_button_anchor_witness :
  screenToWorld initialState
    (mkPoint
       (x (generateButtonPosition initialState (mkBox 0 0 60 60 60 60)) - 10)
       (y (generateButtonPosition initialState (mkBox 0 0 60 60 60 60)) - 10))
  = mkPoint 60 60.
Proof.
  apply (generate_button_anchor initialState (mkBox 0 0 60 60 60 60)).
  unfold MIN_ZOOM, MAX_ZOOM; simpl; lra.
Defined.

End SelectionBox.

(** * Further properties of the transform gestures *)

Section Angles.

(** [Math.atan2] gives the angle of the vector: the vector is its length
    times (cos, sin) of the angle. *)
Lemma atan2_polar (b a : R) :
  a <> 0 \/ b <> 0 ->
  sqrt (a * a + b * b) * cos (Math.atan2 b a) = a /\
  sqrt (a * a + b * b) * sin (Math.atan2 b a) = b.
Proof.
  intros Hne. unfold Math.atan2, Math.PI.
  assert (Hq : 0 < sqrt (1 + (b / a)²))
    by (apply sqrt_lt_R0; pose proof (Rle_0_sqr (b / a)); lra).
  assert (Hqq : sqrt (1 + (b / a)²) * sqrt (1 + (b / a)²) = 1 + (b / a)²)
    by (apply sqrt_sqrt; pose proof (Rle_0_sqr (b / a)); lra).
  destruct (Rlt_dec 0 a) as [Ha | Ha].
  - assert (Hr : sqrt (a * a + b * b) = a * sqrt (1 + (b / a)²)).
    { apply sqrt_lem_1; [nra | nra | ].
      replace (a * sqrt (1 + (b / a)²) * (a * sqrt (1 + (b / a)²)))
        with (a * a * (sqrt (1 + (b / a)²) * sqrt (1 + (b / a)²))) by ring.
      rewrite Hqq. unfold Rsqr. field. lra. }
    rewrite Hr, cos_atan, sin_atan.
    set (q := sqrt (1 + (b / a)²)) in *. split; field; (lra || (split; lra)).
  - destruct (Rlt_dec a 0) as [Ha' | Ha'].
    + assert (Hr : sqrt (a * a + b * b) = - a * sqrt (1 + (b / a)²)).
      { apply sqrt_lem_1; [nra | nra | ].
        replace (- a * sqrt (1 + (b / a)²) * (- a * sqrt (1 + (b / a)²)))
          with (a * a * (sqrt (1 + (b / a)²) * sqrt (1 + (b / a)²))) by ring.
        rewrite Hqq. unfold Rsqr. field. lra. }
      rewrite Hr.
      destruct (Rle_dec 0 b) as [Hb | Hb].
      * rewrite neg_cos, neg_sin, cos_atan, sin_atan.
        set (q := sqrt (1 + (b / a)²)) in *. split; field; (lra || (split; lra)).
      * rewrite cos_minus, sin_minus, cos_PI, sin_PI, cos_atan, sin_atan.
        set (q := sqrt (1 + (b / a)²)) in *. split; field; (lra || (split; lra)).
    + assert (a = 0) by lra. subst a.
      replace (0 * 0 + b * b) with (b * b) by ring.
      destruct (Rlt_dec 0 b) as [Hb | Hb].
      * rewrite sqrt_square by lra. rewrite cos_PI2, sin_PI2. split; ring.
      * destruct (Rlt_dec b 0) as [Hb' | Hb'].
        -- replace (b * b) with (- b * - b) by ring.
           rewrite sqrt_square by lra.
           rewrite cos_neg, sin_neg, cos_PI2, sin_PI2. split; ring.
        -- destruct Hne; lra.
Qed.

(** [Math.atan2] lies in (-PI, PI]. *)
Lemma atan2_range (b a : R) : - PI < Math.atan2 b a <= PI.
Proof.
  unfold Math.atan2, Math.PI. pose proof PI_RGT_0 as Hpi.
  pose proof (atan_bound (b / a)) as [Hlo Hhi].
  destruct (Rlt_dec 0 a) as [Ha | Ha]; [lra | ].
  destruct (Rlt_dec a 0) as [Ha' | Ha'].
  - destruct (Rle_dec 0 b) as [Hb | Hb].
    + assert (Ht : b / a <= 0).
      { unfold Rdiv. assert (/ a < 0) by (apply Rinv_lt_0_compat; lra). nra. }
      assert (atan (b / a) <= 0).
      { destruct Ht as [Ht | Ht].
        - apply atan_increasing in Ht. rewrite atan_0 in Ht. lra.
        - rewrite Ht, atan_0. lra. }
      lra.
    + assert (Ht : 0 < b / a).
      { unfold Rdiv. assert (/ a < 0) by (apply Rinv_lt_0_compat; lra). nra. }
      apply atan_increasing in Ht. rewrite atan_0 in Ht. lra.
  - destruct (Rlt_dec 0 b); [lra | ]. destruct (Rlt_dec b 0); lra.
Qed.

End Angles.

Section GestureComposition.

Import TransformableElement Spec.

Lemma with_base_set_position_same el :
  with_base el (set_position (position (base_of el)) (base_of el)) = el.
Proof. destruct el as [[] ? ? | [] ? | [] ? ? ?]; reflexivity. Qed.

Lemma with_base_set_rotation_same el :
  with_base el (set_rotation (rotation (base_of el)) (base_of el)) = el.
Proof. destruct el as [[] ? ? | [] ? | [] ? ? ?]; reflexivity. Qed.

(** X15. A pointer-down on the body or on the rotate handle selects the
    element and takes it as the snapshot; a move that leaves the pointer
    where it went down then produces the element as it was, at any zoom:
    a click without movement does not nudge or turn the element. *)
Theorem still_pointer (rect : DOMRect) (element current : CanvasElement)
    (e : StartEvent) (ty : InteractionType) (z : R) :
  s_button e = 0%nat ->
  ty = drag \/ ty = rotate ->
  exists i,
    handleInteractionStart (Some rect) element e ty
    = Some ((idOf element, s_shiftKey e), i) /\
    startElement i = element /\
    produced (handleInteractionMove (Some i) z current
                (mkMove (s_clientX e) (s_clientY e)))
    = onUpdate element None.
Proof.
  intros Hb Hty. unfold handleInteractionStart. rewrite Hb. simpl.
  destruct Hty as [-> | ->]; (eexists; split; [reflexivity | ]);
    (split; [reflexivity | ]); unfold handleInteractionMove; simpl.
  - replace ((s_clientX e - s_clientX e) / z) with 0 by (unfold Rdiv; ring).
    replace ((s_clientY e - s_clientY e) / z) with 0 by (unfold Rdiv; ring).
    destruct element as [[i [px py] w h r zi] c1 c2 | [i [px py] w h r zi] c1
                        | [i [px py] w h r zi] [sx sy] [ex ey] c1];
      simpl; unfold set_position; simpl;
      rewrite ?Rplus_0_r; reflexivity.
  - set (a0 := Math.atan2 _ _).
    replace (rotation (base_of element) + (a0 - a0) * (180 / Math.PI))
      with (rotation (base_of element)) by ring.
    rewrite with_base_set_rotation_same. reflexivity.
Qed.

Lemma still_pointer_witness :
  exists i,
    handleInteractionStart (Some (mkRect 0 0 20 20)) elementE
                           (mkStart 0 3 4 false) rotate
    = Some ((idOf elementE, false), i) /\
    startElement i = elementE /\
    produced (handleInteractionMove (Some i) 2 arrow0 (mkMove 3 4))
    = onUpdate elementE None.
Proof.
  apply (still_pointer (mkRect 0 0 20 20) elementE arrow0
                       (mkStart 0 3 4 false) rotate 2).
  - reflexivity.
  - right. reflexivity.
Defined.

(** X16. The same for the resize handle, for an element at least 20 wide
    and 20 high: a move that leaves the pointer where it went down
    produces the element as it was, whatever its rotation. A smaller
    element is brought up to 20 by the first move. *)
Theorem still_pointer_resize (elementRef : option DOMRect)
    (element current : CanvasElement) (e : StartEvent) (z : R) :
  s_button e = 0%nat ->
  20 <= width (base_of element) ->
  20 <= height (base_of element) ->
  exists i,
    handleInteractionStart elementRef element e resize
    = Some ((idOf element, s_shiftKey e), i) /\
    handleInteractionMove (Some i) z current
      (mkMove (s_clientX e) (s_clientY e))
    = onUpdate element None.
Proof.
  intros Hb Hw Hh. unfold handleInteractionStart. rewrite Hb. simpl.
  destruct elementRef; (eexists; split; [reflexivity | ]);
    unfold handleInteractionMove, Math.max; simpl;
    replace ((s_clientX e - s_clientX e) / z) with 0 by (unfold Rdiv; ring);
    replace ((s_clientY e - s_clientY e) / z) with 0 by (unfold Rdiv; ring);
    set (co := Math.cos (- _)); set (si := Math.sin (- _));
    replace (0 * co - 0 * si) with 0 by ring;
    replace (0 * si + 0 * co) with 0 by ring;
    rewrite !Rplus_0_r;
    rewrite (Rmax_right 20 (width (base_of element))) by exact Hw;
    rewrite (Rmax_right 20 (height (base_of element))) by exact Hh;
    f_equal;
    destruct element as [[i [px py] w h r zi] c1 c2 | [i [px py] w h r zi] c1
                        | [i [px py] w h r zi] [sx sy] [ex ey] c1];
    simpl; unfold set_position, set_height, set_width; simpl;
    f_equal; f_equal; f_equal; unfold Rdiv; ring.
Qed.

Lemma still_pointer_resize_witness :
  exists i,
    handleInteractionStart None elementE (mkStart 0 3 4 false) resize
    = Some ((idOf elementE, false), i) /\
    handleInteractionMove (Some i) 2 arrow0 (mkMove 3 4)
    = onUpdate elementE None.
Proof.
  apply (still_pointer_resize None elementE arrow0 (mkStart 0 3 4 false) 2).
  - reflexivity.
  - simpl. lra.
  - simpl. lra.
Defined.

Lemma distance_pos_vector (s en : Point) :
  0 < distance s en -> x en - x s <> 0 \/ y en - y s <> 0.
Proof.
  unfold distance. intros Hd.
  destruct (Req_dec (x en - x s) 0) as [Hx | Hx]; [ | left; exact Hx].
  destruct (Req_dec (y en - y s) 0) as [Hy | Hy]; [ | right; exact Hy].
  rewrite Hx, Hy in Hd.
  replace (0 * 0 + 0 * 0) with 0 in Hd by ring. rewrite sqrt_0 in Hd. lra.
Qed.

(** X17. After an endpoint of an arrow is moved, when the endpoints end at
    least 10 apart, the box of the arrow spans them: the position plus
    half the width along the rotation is the end, and minus half the
    width is the start. *)
Theorem arrow_spans_endpoints (ty : InteractionType) (b : BaseElement)
    (s en : Point) (k : string) (startPoint : Point) (a : option R)
    (c : option Point) (z : R) (element : CanvasElement) (e : MouseEvent) :
  ty = resize_arrow_start \/ ty = resize_arrow_end ->
  exists b' s' en',
    handleInteractionMove
      (Some (mkInteraction ty startPoint (ArrowElement b s en k) a c))
      z element e
    = onUpdate (ArrowElement b' s' en' k) None /\
    (10 <= distance s' en' ->
     en' = mkPoint (x (position b')
                    + width b' / 2 * cos (rotation b' * (PI / 180)))
                   (y (position b')
                    + width b' / 2 * sin (rotation b' * (PI / 180))) /\
     s' = mkPoint (x (position b')
                   - width b' / 2 * cos (rotation b' * (PI / 180)))
                  (y (position b')
                   - width b' / 2 * sin (rotation b' * (PI / 180)))).
Proof.
  intros Hty.
  destruct (resize_arrow_invariant_floored ty b s en k startPoint a c z
              element e Hty) as (b' & s' & en' & Hu & Hp & Hw & Hr).
  exists b', s', en'. split; [exact Hu | ]. intros Hlen.
  rewrite Hp, Hw, Hr. rewrite (Rmax_right 10 (distance s' en')) by exact Hlen.
  unfold angle.
  replace (Math.atan2 (y en' - y s') (x en' - x s') * (180 / PI) * (PI / 180))
    with (Math.atan2 (y en' - y s') (x en' - x s'))
    by (field; apply PI_neq0).
  assert (Hv : x en' - x s' <> 0 \/ y en' - y s' <> 0)
    by (apply distance_pos_vector; lra).
  destruct (atan2_polar (y en' - y s') (x en' - x s') Hv) as [Hc Hs].
  unfold distance. unfold midpoint; simpl.
  set (r := sqrt _) in *. set (t := Math.atan2 _ _) in *.
  destruct s' as [sx sy], en' as [ex ey]; simpl in *.
  split; f_equal; lra.
Qed.

Lemma arrow_spans_endpoints_witness :
  exists b' s' en',
    handleInteractionMove
      (Some (mkInteraction resize_arrow_end (mkPoint 0 0) arrow0 None None))
      1 arrow0 (mkMove 0 100)
    = onUpdate (ArrowElement b' s' en' "text-gray-800") None /\
    (10 <= distance s' en' ->
     en' = mkPoint (x (position b')
                    + width b' / 2 * cos (rotation b' * (PI / 180)))
                   (y (position b')
                    + width b' / 2 * sin (rotation b' * (PI / 180))) /\
     s' = mkPoint (x (position b')
                   - width b' / 2 * cos (rotation b' * (PI / 180)))
                  (y (position b')
                   - width b' / 2 * sin (rotation b' * (PI / 180)))).
Proof.
  apply (arrow_spans_endpoints resize_arrow_end
           (mkBase "a" (mkPoint 50 0) 100 30 0 0) (mkPoint 0 0)
           (mkPoint 100 0) "text-gray-800" (mkPoint 0 0) None None 1
           arrow0 (mkMove 0 100)).
  right. reflexivity.
Defined.




(** X19. Turning an element: after a pointer-down on the rotate handle,
    every move keeps the position, the width and the height of the
    snapshot, and leaves the rotation less than a full turn away from the
    rotation of the snapshot, since both angles are taken in (-PI, PI]. *)
Theorem rotate_within_turn (rect : DOMRect) (element current : CanvasElement)
    (e : StartEvent) (z : R) (ev : MouseEvent) :
  s_button e = 0%nat ->
  exists i u,
    handleInteractionStart (Some rect) element e rotate
    = Some ((idOf element, s_shiftKey e), i) /\
    handleInteractionMove (Some i) z current ev = onUpdate u None /\
    position (base_of u) = position (base_of element) /\
    width (base_of u) = width (base_of element) /\
    height (base_of u) = height (base_of element) /\
    rotation (base_of element) - 360 < rotation (base_of u)
    < rotation (base_of element) + 360.
Proof.
  intros Hb. unfold handleInteractionStart. rewrite Hb. simpl.
  do 2 eexists. split; [reflexivity | ].
  unfold handleInteractionMove; simpl. split; [reflexivity | ].
  rewrite base_of_with_base; simpl.
  do 3 (split; [reflexivity | ]).
  set (a1 := Math.atan2 (clientY ev - _) _).
  set (a0 := Math.atan2 (s_clientY e - _) _).
  pose proof (atan2_range (clientY ev - (top rect + rect_height rect / 2))
                          (clientX ev - (left rect + rect_width rect / 2)))
    as H1.
  pose proof (atan2_range (s_clientY e - (top rect + rect_height rect / 2))
                          (s_clientX e - (left rect + rect_width rect / 2)))
    as H0.
  fold a1 in H1. fold a0 in H0. unfold Math.PI.
  pose proof PI_RGT_0 as Hpi.
  assert (Hk : 0 < 180 / PI) by (apply Rdiv_lt_0_compat; lra).
  assert (Hkp : 180 / PI * PI = 180) by (field; lra).
  split; nra.
Qed.

Lemma rotate_within_turn_witness :
  exists i u,
    handleInteractionStart (Some (mkRect 0 0 20 20)) elementE
                           (mkStart 0 3 4 false) rotate
    = Some ((idOf elementE, false), i) /\
    handleInteractionMove (Some i) 1 elementE (mkMove 30 (-7))
    = onUpdate u None /\
    position (base_of u) = position (base_of elementE) /\
    width (base_of u) = width (base_of elementE) /\
    height (base_of u) = height (base_of elementE) /\
    rotation (base_of elementE) - 360 < rotation (base_of u)
    < rotation (base_of elementE) + 360.
Proof.
  apply (rotate_within_turn (mkRect 0 0 20 20) elementE elementE
                            (mkStart 0 3 4 false) 1 (mkMove 30 (-7))).
  reflexivity.
Defined.

Lemma drag_move_eq sp S a c z current e :
  exists u,
    handleInteractionMove (Some (mkInteraction drag sp S a c)) z current e
    = onUpdate u
        (Some (mkPoint (x (position (base_of S)) + (clientX e - x sp) / z
                        - x (position (base_of current)))
                       (y (position (base_of S)) + (clientY e - y sp) / z
                        - y (position (base_of current))))) /\
    position (base_of u)
    = mkPoint (x (position (base_of S)) + (clientX e - x sp) / z)
              (y (position (base_of S)) + (clientY e - y sp) / z).
Proof.
  unfold handleInteractionMove; simpl. eexists. split; [reflexivity | ].
  destruct S; reflexivity.
Qed.

Lemma dragDeltas_sum parent sp S a c z e :
  (forall el u d, position (base_of (parent el u d)) = position (base_of u)) ->
  forall es current,
    sumPoints (dragDeltas parent (Some (mkInteraction drag sp S a c)) z
                          current (es ++ [e]))
    = mkPoint (x (position (base_of S)) + (clientX e - x sp) / z
               - x (position (base_of current)))
              (y (position (base_of S)) + (clientY e - y sp) / z
               - y (position (base_of current))).
Proof.
  intros Hparent. induction es as [ | e1 es IH]; intros current.
  - destruct (drag_move_eq sp S a c z current e) as (u & Hu & _).
    cbn [app dragDeltas]. rewrite Hu. simpl. f_equal; ring.
  - destruct (drag_move_eq sp S a c z current e1) as (u & Hu & Hpos).
    cbn [app dragDeltas]. fold (es ++ [e]). rewrite Hu.
    cbn [sumPoints fold_right]. fold (sumPoints
      (dragDeltas parent (Some (mkInteraction drag sp S a c)) z
                  (parent current u
                     (Some (mkPoint
                              (x (position (base_of S))
                               + (clientX e1 - x sp) / z
                               - x (position (base_of current)))
                              (y (position (base_of S))
                               + (clientY e1 - y sp) / z
                               - y (position (base_of current))))))
                  (es ++ [e]))).
    rewrite IH, Hparent, Hpos. simpl. f_equal; ring.
Qed.

(** X20. The drag deltas add up: when the parent keeps the position each
    update gives the element, the deltas handed to [onUpdate] during a drag
    that starts from the element itself sum to the pointer's displacement
    since the pointer-down, divided by the zoom, however many moves there
    were: what follows the deltas moves as far as the element. *)
Theorem drag_deltas_total
    (parent : CanvasElement -> CanvasElement -> option Point -> CanvasElement)
    (startPoint : Point) (S : CanvasElement) (a : option R)
    (c : option Point) (z : R) (es : list MouseEvent) (e : MouseEvent) :
  (forall el u d, position (base_of (parent el u d)) = position (base_of u)) ->
  sumPoints (dragDeltas parent (Some (mkInteraction drag startPoint S a c)) z
                        S (es ++ [e]))
  = worldDelta z startPoint e.
Proof.
  intros Hparent. rewrite (dragDeltas_sum parent startPoint S a c z e Hparent).
  unfold worldDelta. f_equal; ring.
Qed.

Lemma drag_deltas_total_witness :
  sumPoints (dragDeltas replacing
               (Some (mkInteraction drag (mkPoint 0 0) elementE None None)) 2
               elementE ([mkMove 10 0; mkMove 7 (-3)] ++ [mkMove 30 8]))
  = worldDelta 2 (mkPoint 0 0) (mkMove 30 8).
Proof.
  apply (drag_deltas_total replacing (mkPoint 0 0) elementE None None 2
                           [mkMove 10 0; mkMove 7 (-3)] (mkMove 30 8)).
  reflexivity.
Defined.

End GestureComposition.

Section CanvasComposition.

Import InfiniteCanvas.

Lemma handleWheel_keeps_anchor rect e st :
  MIN_ZOOM <= zoom st <= MAX_ZOOM ->
  screenToWorld (handleWheel (Some rect) e st)
                (mkPoint (w_clientX e - left rect) (w_clientY e - top rect))
  = screenToWorld st
                  (mkPoint (w_clientX e - left rect) (w_clientY e - top rect)).
Proof.
  intros Hz.
  pose proof (clamp_bounds (zoom st * (1 - deltaY e * (1 / 1000)))) as Hn.
  pose proof MIN_ZOOM_pos as Hm.
  unfold screenToWorld, handleWheel; simpl.
  set (nz := Math.max MIN_ZOOM _) in *.
  f_equal; field; split; lra.
Qed.

(** X21. Turning the wheel over one place: after any number of wheel
    events at the same pointer position, with whatever deltas, the world
    point under the pointer is still the one that was there at the start
    (the zoom being within its bounds at the start). *)
Theorem wheels_same_anchor (rect : DOMRect) (cx cy : R) (ds : list R)
    (st : State) :
  MIN_ZOOM <= zoom st <= MAX_ZOOM ->
  screenToWorld
    (wheels (map (fun d => (Some rect, mkWheel cx cy d)) ds) st)
    (mkPoint (cx - left rect) (cy - top rect))
  = screenToWorld st (mkPoint (cx - left rect) (cy - top rect)).
Proof.
  revert st. induction ds as [ | d ds IH]; intros st Hz; [reflexivity | ].
  cbn [map wheels].
  rewrite IH by (apply handleWheel_zoom_bounds; exact Hz).
  apply (handleWheel_keeps_anchor rect (mkWheel cx cy d) st Hz).
Qed.

Lemma wheels_same_anchor_witness :
  screenToWorld
    (wheels (map (fun d => (Some (mkRect 1 2), mkWheel 100 50 d))
                 [-300; 9000; -120]) initialState)
    (mkPoint (100 - 1) (50 - 2))
  = screenToWorld initialState (mkPoint (100 - 1) (50 - 2)).
Proof.
  apply (wheels_same_anchor (mkRect 1 2) 100 50 [-300; 9000; -120]
                            initialState).
  unfold MIN_ZOOM, MAX_ZOOM; simpl; lra.
Defined.

(** X22. A whole marquee gesture on an idle canvas (no pan, no marquee,
    space bar up): the pointer-down calls [onSelectElement(null, shiftKey)]
    with the shift key of the pointer-down; the pointer-up calls
    [onMarqueeSelect] with the identifiers of the elements whose centre is
    in the box between the pointer-down point and the last pointer point,
    in the order of the elements and with the shift key of the pointer-up,
    or nothing when there are none; and the canvas is idle again, with the
    pan and the zoom it had. *)
Theorem marquee_gesture_commit (props : Props) (e0 : MouseEvent)
    (es : list MouseEvent) (e eUp : MouseEvent) (st : State) :
  isSpacebarPressed st = false ->
  isPanning st = false ->
  marqueeRect st = None ->
  button e0 = 0%nat ->
  onElement e0 = false ->
  let m := mkMarquee (mkPoint (clientX e0) (clientY e0))
                     (mkPoint (clientX e) (clientY e)) in
  let ids := map idOf (filter (inSelectionBox (selectionBox st m))
                              (elements props)) in
  snd (handleMouseDown e0 st) = [onSelectElement None (shiftKey e0)] /\
  handleMouseUp props eUp
    (mouseMoves (es ++ [e]) (fst (handleMouseDown e0 st)))
  = (st, match ids with
         | [] => []
         | _ => [onMarqueeSelect ids (shiftKey eUp)]
         end).
Proof.
  intros Hs Hp Hm Hb He m ids.
  rewrite (marquee_moves e0 es e st Hs Hp Hb He).
  split.
  - unfold handleMouseDown. rewrite Hb, He, Hs. reflexivity.
  - unfold ids, m; clear ids m.
    rewrite (handleMouseUp_commit props eUp
               (set_marqueeRect
                  (Some (mkMarquee (mkPoint (clientX e0) (clientY e0))
                                   (mkPoint (clientX e) (clientY e)))) st)
               (mkMarquee (mkPoint (clientX e0) (clientY e0))
                          (mkPoint (clientX e) (clientY e))) eq_refl).
    f_equal. destruct st; simpl in *. subst. reflexivity.
Qed.

Lemma marquee_gesture_commit_witness :
  snd (handleMouseDown (mkMouse 0 0 0 false false) initialState)
  = [onSelectElement None false] /\
  fst (handleMouseUp (mkProps [Spec.elementE] []) (mkMouse 5 5 0 true false)
         (mouseMoves ([mkMouse 3 3 0 false false]
                      ++ [mkMouse 5 5 0 false false])
                     (fst (handleMouseDown (mkMouse 0 0 0 false false)
                                           initialState))))
  = initialState.
Proof.
  destruct (marquee_gesture_commit (mkProps [Spec.elementE] [])
              (mkMouse 0 0 0 false false) [mkMouse 3 3 0 false false]
              (mkMouse 5 5 0 false false) (mkMouse 5 5 0 true false)
              initialState eq_refl eq_refl eq_refl eq_refl eq_refl)
    as [Hdown Hup].
  split; [exact Hdown | ]. rewrite Hup. reflexivity.
Defined.

Lemma includes_ext (ids1 ids2 : list string) :
  (forall i, In i ids1 <-> In i ids2) ->
  forall i, includes ids1 i = includes ids2 i.
Proof.
  intros Hsame i.
  destruct (includes ids1 i) eqn:H1, (includes ids2 i) eqn:H2; trivial.
  - apply includes_In, Hsame, includes_In in H1. congruence.
  - apply includes_In, Hsame, includes_In in H2. congruence.
Qed.

(** X23. The selection counts as a set: two lists of selected identifiers
    with the same members, in whatever order and with whatever repeats,
    give the same call of [onGenerate] (the selected elements in the order
    of the elements) and the same selection box. *)
Theorem selection_order_irrelevant (els : list CanvasElement)
    (ids1 ids2 : list string) (st : State) :
  (forall i, In i ids1 <-> In i ids2) ->
  handleGenerateClick (mkProps els ids1) st
  = handleGenerateClick (mkProps els ids2) st /\
  selectionBbox (mkProps els ids1) = selectionBbox (mkProps els ids2).
Proof.
  intros Hsame.
  assert (Hf : filter (fun el => includes ids1 (id (base_of el))) els
               = filter (fun el => includes ids2 (id (base_of el))) els).
  { apply filter_ext. intros el. apply includes_ext. exact Hsame. }
  unfold handleGenerateClick, selectionBbox; simpl. rewrite Hf.
  split; reflexivity.
Qed.

Lemma selection_order_irrelevant_witness :
  handleGenerateClick
    (mkProps [Spec.elementE; Spec.arrow0] ["a"%string; "E"%string])
    initialState
  = handleGenerateClick
      (mkProps [Spec.elementE; Spec.arrow0]
               ["E"%string; "a"%string; "E"%string])
      initialState.
Proof.
  apply (selection_order_irrelevant [Spec.elementE; Spec.arrow0]
           ["a"%string; "E"%string] ["E"%string; "a"%string; "E"%string]
           initialState).
  intros i; simpl; tauto.
Defined.

End CanvasComposition.
